(** * Vue wrapper factory and React proxy generator: a shallow embedding

    The development follows the two source files of the repository:

    - [packages/vue-output-target/vue-component-lib/utils.ts]
      (constants, [getComponentClasses], [getElementClasses] and the
      closures created by [defineContainer]) in [Module Vue];
    - [packages/react-library-output/src/output-react.ts]
      ([getFilteredComponents], [createComponentDefinition],
      [generateProxies], [copyResources], [reactProxyOutput]) in
      [Module React].

    JavaScript values, exceptions and strings shared by both live in
    [Module Js]. *)

From Stdlib Require Import ZArith Lia Ascii String.
From stdpp Require Import gmap strings list fin_maps sorting.

Open Scope string_scope.
Open Scope list_scope.

(** ** JavaScript values, results and string helpers *)

Module Js.

(** Plain data as it can be stored on a DOM element or passed as a prop.
    [VEmptyProp] is the one symbol created by [const EMPTY_PROP = Symbol()]. *)
Inductive jsval : Type :=
| VEmptyProp
| VUndefined
| VNull
| VBool (b : bool)
| VNum (n : Z)
| VStr (s : string).

(** A thrown exception, or a normal return. *)
Inductive result (A : Type) : Type :=
| Ok (a : A)
| Throw (msg : string).
Arguments Ok {A} a.
Arguments Throw {A} msg.

(** Statements run in sequence; the first exception ends the sequence.
    With the instances below, [x ← r; k] is stdpp's notation for it. *)
#[global] Instance result_ret : MRet result := fun A a => Ok a.
#[global] Instance result_bind : MBind result := fun A B k r =>
  match r with
  | Ok a => k a
  | Throw m => Throw m
  end.

Definition is_ok {A} (r : result A) : bool :=
  match r with Ok _ => true | Throw _ => false end.

(** Truthiness of a string that may be [undefined]: [if (modelProp)],
    [!outputTarget.componentCorePackage], [x || '']. *)
Definition truthy (s : option string) : bool :=
  match s with
  | Some s => negb (String.eqb s "")
  | None => false
  end.

(** [s.split(sep)] for a one-character separator: always at least one
    piece, empty pieces are kept. *)
Fixpoint split (sep : ascii) (s : string) : list string :=
  match s with
  | EmptyString => [EmptyString]
  | String c rest =>
      if Ascii.eqb c sep then EmptyString :: split sep rest
      else match split sep rest with
           | [] => [String c EmptyString]
           | w :: ws => String c w :: ws
           end
  end.

(** [pieces.join(sep)]. *)
Fixpoint join (sep : string) (pieces : list string) : string :=
  match pieces with
  | [] => EmptyString
  | [w] => w
  | w :: ws => w +:+ sep +:+ join sep ws
  end.

(** [s.startsWith(p)]. *)
Fixpoint startsWith (p s : string) : bool :=
  match p, s with
  | EmptyString, _ => true
  | String a p', String b s' => Ascii.eqb a b && startsWith p' s'
  | String _ _, EmptyString => false
  end.

(** Whether a character occurs in a string. *)
Fixpoint occurs (c : ascii) (s : string) : bool :=
  match s with
  | EmptyString => false
  | String d rest => Ascii.eqb d c || occurs c rest
  end.

(** How often a character occurs in a string. *)
Fixpoint countChar (c : ascii) (s : string) : nat :=
  match s with
  | EmptyString => 0
  | String d rest => (if Ascii.eqb d c then 1 else 0) + countChar c rest
  end.

(** [self.indexOf(c)]: position of the first occurrence, [-1] if none. *)
Fixpoint indexOf (self : list string) (c : string) : Z :=
  match self with
  | [] => (-1)%Z
  | x :: rest =>
      if String.eqb x c then 0%Z
      else let r := indexOf rest c in
           if (r <? 0)%Z then (-1)%Z else (r + 1)%Z
  end.

(** [self.filter((c, i) => p c i)], the callback seeing element and index. *)
Fixpoint filter_from {A} (p : A -> nat -> bool) (i : nat) (l : list A) : list A :=
  match l with
  | [] => []
  | x :: rest =>
      if p x i then x :: filter_from p (S i) rest
      else filter_from p (S i) rest
  end.

Definition filteri {A} (p : A -> nat -> bool) (l : list A) : list A :=
  filter_from p 0 l.

End Js.

Import Js.

(** ** vue-component-lib/utils.ts *)

Module Vue.

Definition UPDATE_VALUE_EVENT : string := "update:modelValue".
Definition MODEL_VALUE : string := "modelValue".
Definition ROUTER_LINK_VALUE : string := "routerLink".
Definition NAV_MANAGER : string := "navManager".
Definition ROUTER_PROP_PREFIX : string := "router".
Definition ARIA_PROP_PREFIX : string := "aria".

(** The underlying custom element: its live class list and its properties. *)
Record Element : Type := {
  classList : list string;
  properties : gmap string jsval
}.

(** A DOM event as the wrapper uses it: [e.target] and [ev.defaultPrevented]. *)
Record Event : Type := {
  ev_type : string;
  target : Element;
  defaultPrevented : bool
}.

(** A value found on the wrapper's [props] object: plain data, or a function
    passed by the caller. The wrapper only ever calls such a function with
    an event, and the one thing it reads back afterwards is
    [ev.defaultPrevented]; a function is therefore given by whether it calls
    [ev.preventDefault()] on the event it receives. *)
Inductive propval : Type :=
| Data (v : jsval)
| Fun (h : Event -> bool).

(** [obj[key]] on a plain object: [undefined] when the key is missing. *)
Definition prop_get (props : gmap string propval) (key : string) : propval :=
  default (Data VUndefined) (props !! key).

Definition element_get (el : Element) (key : string) : jsval :=
  default VUndefined (properties el !! key).

(** A property key computed from an optional string: [obj[undefined]] reads
    the property named ["undefined"]. *)
Definition propKey (k : option string) : string :=
  default "undefined" k.

(** [value !== EMPTY_PROP] is [negb (is_EMPTY_PROP value)]. *)
Definition is_EMPTY_PROP (p : propval) : bool :=
  match p with
  | Data VEmptyProp => true
  | _ => false
  end.

(** [value !== undefined] is [negb (is_undefined value)]. *)
Definition is_undefined (p : propval) : bool :=
  match p with
  | Data VUndefined => true
  | _ => false
  end.

(** [modelUpdateEvent] is left out, one name, or an array of names. *)
Inductive EventNames : Type :=
| NoEvent
| OneEvent (eventName : string)
| ManyEvents (eventNames : list string).

(** [if (modelUpdateEvent)]: an array is truthy even when empty. *)
Definition truthy_events (ev : EventNames) : bool :=
  match ev with
  | NoEvent => false
  | OneEvent n => negb (String.eqb n "")
  | ManyEvents _ => true
  end.

(** [Array.isArray(modelUpdateEvent) ? modelUpdateEvent : [modelUpdateEvent]],
    evaluated under [if (modelUpdateEvent)]. *)
Definition eventsNames (ev : EventNames) : list string :=
  match ev with
  | NoEvent => []
  | OneEvent n => [n]
  | ManyEvents ns => ns
  end.

(** [arr?.length] used as a condition. *)
Definition has_length (arr : option (list string)) : bool :=
  match arr with
  | Some (_ :: _) => true
  | _ => false
  end.

(** The arguments of [defineContainer] (the element definer is called once
    and plays no part afterwards). [componentProps] is destructured into
    its first two entries, either of which may be missing. *)
Record Options : Type := {
  name : string;
  componentProperties : option (list string);
  componentCustomEvents : option (list string);
  modelProp : option string;
  modelUpdateEvent : EventNames;
  externalModelUpdateEvent : option string
}.

(** [Container.props]: the declared inputs, each with [DEFAULT_EMPTY_PROP]. *)
Definition containerProps (o : Options) : list string :=
  [ROUTER_LINK_VALUE]
  ++ (if has_length (componentProperties o)
      then default [] (componentProperties o) else [])
  ++ (if truthy (modelProp o) then [MODEL_VALUE] else []).

(** [Container.emits]; the external event is appended as it is, set or not. *)
Definition containerEmits (o : Options) : list (option string) :=
  (if has_length (componentCustomEvents o)
   then Some <$> default [] (componentCustomEvents o) else [])
  ++ (if truthy (modelProp o)
      then [Some UPDATE_VALUE_EVENT; externalModelUpdateEvent o] else []).

(** The navigation host found under [NAV_MANAGER]. *)
Record NavManager : Type := { nav_id : nat }.

(** What is handed to [emit], and what a navigation payload holds. *)
Inductive payload : Type :=
| OfProp (v : propval)
| OfEvent (e : Event).

(** Effects on the wrapper's surroundings, in the order they happen.
    [Emit name arg seen]: [emit(name, arg)]; [seen] is the content of the
    closure variable [modelPropValue] at the moment of the call, which is
    what a handler running inside that call finds cached.
    [Call h ev]: the caller's click handler [h] is run on [ev].
    [Navigate host p]: [navManager.navigate(p)].
    [Warn msg]: [console.warn(msg)]. *)
Inductive effect : Type :=
| Emit (eventName : string) (arg : payload) (seen : propval)
| Call (h : Event -> bool) (ev : Event)
| Navigate (host : NavManager) (navigationPayload : gmap string payload)
| Warn (msg : string).

(** The closure variables of one mounted wrapper. [containerRef] holds the
    element as it currently is; a change of the live element from outside
    is a change of this field. *)
Record Instance : Type := {
  modelPropValue : propval;
  containerRef : option Element;
  classes : gset string;
  navManager : option NavManager
}.

Definition set_modelPropValue (v : propval) (st : Instance) : Instance :=
  {| modelPropValue := v;
     containerRef := containerRef st;
     classes := classes st;
     navManager := navManager st |}.

Definition set_classes (cs : gset string) (st : Instance) : Instance :=
  {| modelPropValue := modelPropValue st;
     containerRef := containerRef st;
     classes := cs;
     navManager := navManager st |}.

(** The element is put into [containerRef] at mount, or changes. *)
Definition set_containerRef (el : option Element) (st : Instance) : Instance :=
  {| modelPropValue := modelPropValue st;
     containerRef := el;
     classes := classes st;
     navManager := navManager st |}.

(** [getComponentClasses]: [(classes as string)?.split(' ') || []].
    The optional chain stops on [undefined] and [null] only; on any other
    value the member [split] is looked up, and calling it when it is not a
    function (every non-string primitive) is a [TypeError]. An array is
    always truthy, so the [|| []] alternative is taken only after the chain
    short-circuited. *)
Definition getComponentClasses (classes : jsval) : result (list string) :=
  match classes with
  | VUndefined | VNull => Ok []
  | VStr s => Ok (split " " s)
  | _ => Throw "TypeError: classes.split is not a function"
  end.

(** [getElementClasses]: the element's live classes (none while the ref is
    still empty) followed by [defaultClasses], keeping an entry when the
    component does not own it and it is its own first occurrence. *)
Definition getElementClasses (ref : option Element)
    (componentClasses : gset string) (defaultClasses : list string)
    : list string :=
  let self := match ref with
              | Some el => classList el
              | None => []
              end ++ defaultClasses in
  filteri (fun c i => negb (bool_decide (c ∈ componentClasses))
                      && (indexOf self c =? Z.of_nat i)%Z) self.

(** [emit(eventName, arg)] called from inside the instance's closures. *)
Definition emit (eventName : string) (arg : payload) (st : Instance) : effect :=
  Emit eventName arg (modelPropValue st).

(** The listener added for each model-update event name: the cache is
    assigned from [e.target[modelProp]], the binding update is emitted, and
    then, if an external event is configured, that event is emitted. *)
Definition modelListener (o : Options) (e : Event) (st : Instance)
    : Instance * list effect :=
  let st := set_modelPropValue
              (Data (element_get (target e) (propKey (modelProp o)))) st in
  let out := [emit UPDATE_VALUE_EVENT (OfProp (modelPropValue st)) st] in
  let out := match externalModelUpdateEvent o with
             | Some ext =>
                 if truthy (Some ext) then out ++ [emit ext (OfEvent e) st]
                 else out
             | None => out
             end in
  (st, out).

(** The listener added for each declared custom event. *)
Definition customListener (eventName : string) (e : Event) (st : Instance)
    : Instance * list effect :=
  (st, [emit eventName (OfEvent e) st]).

Inductive Listener : Type :=
| ModelUpdate
| Custom (eventName : string).

(** [onVnodeBeforeMount]: the calls of [vnode.el.addEventListener], in
    order, as pairs of the event name and the listener added for it. *)
Definition onVnodeBeforeMount (o : Options) (vnode_el : option Element)
    : list (string * Listener) :=
  match vnode_el with
  | None => []
  | Some _ =>
      (if truthy_events (modelUpdateEvent o)
       then (fun eventName => (eventName, ModelUpdate))
              <$> eventsNames (modelUpdateEvent o)
       else [])
      ++ (if has_length (componentCustomEvents o)
          then (fun eventName => (eventName, Custom eventName))
                 <$> default [] (componentCustomEvents o)
          else [])
  end.

Definition runListener (o : Options) (l : Listener) (e : Event) (st : Instance)
    : Instance * list effect :=
  match l with
  | ModelUpdate => modelListener o e st
  | Custom eventName => customListener eventName e st
  end.

(** The element fires [e]: every listener added for [e]'s type runs, in
    the order the listeners were added. *)
Fixpoint dispatch (o : Options) (listeners : list (string * Listener))
    (e : Event) (st : Instance) : Instance * list effect :=
  match listeners with
  | [] => (st, [])
  | (eventName, l) :: rest =>
      if String.eqb eventName (ev_type e) then
        let '(st1, out1) := runListener o l e st in
        let '(st2, out2) := dispatch o rest e st1 in
        (st2, out1 ++ out2)
      else dispatch o rest e st
  end.

(** [props.hasOwnProperty(key)]; [props] holds its own keys only, and these
    are the keys [for (const key in props)] goes through. *)
Definition hasOwnProperty (props : gmap string propval) (key : string) : bool :=
  bool_decide (is_Some (props !! key)).

(** The [navigationPayload] object built in [handleRouterLink]. *)
Definition navigationPayload (props : gmap string propval) (ev : Event)
    : gmap string payload :=
  foldl (fun acc kv =>
           let '(key, value) := kv in
           if hasOwnProperty props key
              && startsWith ROUTER_PROP_PREFIX key
              && negb (is_EMPTY_PROP value)
           then <[key := OfProp value]> acc
           else acc)
        {["event" := OfEvent ev]} (map_to_list props).

Definition NO_ROUTER_WARNING : string :=
  "Tried to navigate, but no router was found. Make sure you have mounted Vue Router.".

Definition handleRouterLink (props : gmap string propval) (st : Instance)
    (ev : Event) : list effect :=
  if is_EMPTY_PROP (prop_get props ROUTER_LINK_VALUE) then []
  else match navManager st with
       | Some nav => [Navigate nav (navigationPayload props ev)]
       | None => [Warn NO_ROUTER_WARNING]
       end.

(** [ev.preventDefault()] called or not by a handler. *)
Definition after_handler (called : bool) (ev : Event) : Event :=
  {| ev_type := ev_type ev;
     target := target ev;
     defaultPrevented := defaultPrevented ev || called |}.

(** [handleClick], with the [oldClick] it closed over. Calling a value
    that is neither [undefined] nor a function is a [TypeError]. *)
Definition handleClick (oldClick : propval) (props : gmap string propval)
    (st : Instance) (ev : Event) : result (Event * list effect) :=
  '(ev, out) ← (if negb (is_undefined oldClick) then
                  match oldClick with
                  | Fun h => Ok (after_handler (h ev) ev, [Call h ev])
                  | Data _ => Throw "TypeError: oldClick is not a function"
                  end
                else Ok (ev, []));
  if negb (defaultPrevented ev)
  then Ok (ev, out ++ handleRouterLink props st ev)
  else Ok (ev, out).

(** An entry of the [propsToAdd] object handed to [h]. *)
Inductive attr : Type :=
| AProp (v : propval)
| ARef
| AClass (cls : list string)
| AHandleClick (oldClick : propval)
| AVnodeHook.

Record VNode : Type := {
  tag : string;
  vprops : gmap string attr
}.

(** The setup function, up to the render closure it returns. [hasRouter]
    is the truthiness of [currentInstance?.appContext?.provides[NAV_MANAGER]]
    and [injected] the result of [inject(NAV_MANAGER)]. *)
Definition setup (o : Options) (props : gmap string propval)
    (attrs_class : jsval) (hasRouter : bool) (injected : option NavManager)
    : result Instance :=
  cls ← getComponentClasses attrs_class;
  mret {| modelPropValue := prop_get props (propKey (modelProp o));
          containerRef := None;
          classes := list_to_set cls;
          navManager := if hasRouter then injected else None |}.

(** [getComponentClasses(attrs.class).forEach(value => classes.add(value))]. *)
Definition addClasses (attrs_class : jsval) (st : Instance) : result Instance :=
  cls ← getComponentClasses attrs_class;
  mret (set_classes (foldl (fun acc value => acc ∪ {[value]}) (classes st) cls) st).

(** The class list assigned to [propsToAdd.class]. *)
Definition mergedClasses (st : Instance) : list string :=
  getElementClasses (containerRef st) (classes st) [].

(** [propsToAdd] as first built in the render closure. *)
Definition initialProps (oldClick : propval) (st : Instance) : gmap string attr :=
  <["onVnodeBeforeMount" := AVnodeHook]>
    (<["onClick" := AHandleClick oldClick]>
       (<["class" := AClass (mergedClasses st)]>
          (<["ref" := ARef]> ∅))).

(** The [for (const key in props)] loop of the render closure. *)
Definition forwardProps (props : gmap string propval)
    (propsToAdd : gmap string attr) : gmap string attr :=
  foldl (fun acc kv =>
           let '(key, value) := kv in
           if (hasOwnProperty props key && negb (is_EMPTY_PROP value))
              || startsWith ARIA_PROP_PREFIX key
           then <[key := AProp value]> acc
           else acc)
        propsToAdd (map_to_list props).

(** The [if (modelProp)] block of the render closure. *)
Definition modelPrecedence (o : Options) (props : gmap string propval)
    (st : Instance) (propsToAdd : gmap string attr) : gmap string attr :=
  if truthy (modelProp o) then
    if negb (is_EMPTY_PROP (prop_get props MODEL_VALUE))
    then <[propKey (modelProp o) := AProp (prop_get props MODEL_VALUE)]> propsToAdd
    else if negb (is_EMPTY_PROP (modelPropValue st))
    then <[propKey (modelProp o) := AProp (modelPropValue st)]> propsToAdd
    else propsToAdd
  else propsToAdd.

(** The render closure: the instance after it, and the arguments of [h]
    or the exception. The assignment to [modelPropValue] has happened by
    the time [getComponentClasses] can throw. *)
Definition render (o : Options) (props : gmap string propval)
    (attrs_class : jsval) (st : Instance) : Instance * result VNode :=
  let st := set_modelPropValue (prop_get props (propKey (modelProp o))) st in
  match addClasses attrs_class st with
  | Throw m => (st, Throw m)
  | Ok st =>
      let oldClick := prop_get props "onClick" in
      let propsToAdd := initialProps oldClick st in
      let propsToAdd := forwardProps props propsToAdd in
      let propsToAdd := modelPrecedence o props st propsToAdd in
      (st, Ok {| tag := name o; vprops := propsToAdd |})
  end.

(** The cache content an emission was made under. *)
Definition seen_by (eff : effect) : option propval :=
  match eff with
  | Emit _ _ seen => Some seen
  | _ => None
  end.

(** An emission made under the cache content [v]. *)
Definition sees (v : propval) (eff : effect) : Prop :=
  forall seen, seen_by eff = Some seen -> seen = v.

(** The value a model listener reads off the event's target. *)
Definition readModel (o : Options) (e : Event) : propval :=
  Data (element_get (target e) (propKey (modelProp o))).

(** The event as [oldClick] leaves it, and the call made, when [oldClick]
    is a function. *)
Definition clicked (oldClick : propval) (ev : Event) : Event :=
  match oldClick with
  | Fun h => after_handler (h ev) ev
  | Data _ => ev
  end.

Definition called (oldClick : propval) (ev : Event) : list effect :=
  match oldClick with
  | Fun h => [Call h ev]
  | Data _ => []
  end.

(** The emission of the external event by the model listener, if any. *)
Definition externalEmission (o : Options) (e : Event) (seen : propval)
    : list effect :=
  match externalModelUpdateEvent o with
  | Some ext => if truthy (Some ext) then [Emit ext (OfEvent e) seen] else []
  | None => []
  end.





Definition is_warn (eff : effect) : bool :=
  match eff with
  | Warn _ => true
  | _ => false
  end.

Definition is_navigate (eff : effect) : bool :=
  match eff with
  | Navigate _ _ => true
  | _ => false
  end.

(** The keys [propsToAdd] is built with. *)
Definition RESERVED : list string :=
  ["ref"; "class"; "onClick"; "onVnodeBeforeMount"].

(** The condition of the forwarding loop for a key the props object owns. *)
Definition forwarded (key : string) (value : propval) : bool :=
  negb (is_EMPTY_PROP value) || startsWith ARIA_PROP_PREFIX key.

(** What the [if (modelProp)] block assigns under the model property in a
    render, [modelPropValue] having just been read from [props[modelProp]]. *)
Definition modelAssigned (o : Options) (props : gmap string propval)
    : option propval :=
  if truthy (modelProp o) then
    if negb (is_EMPTY_PROP (prop_get props MODEL_VALUE))
    then Some (prop_get props MODEL_VALUE)
    else if negb (is_EMPTY_PROP (prop_get props (propKey (modelProp o))))
    then Some (prop_get props (propKey (modelProp o)))
    else None
  else None.

(** The name an emission goes out under. *)
Definition emitted (eff : effect) : option string :=
  match eff with
  | Emit eventName _ _ => Some eventName
  | _ => None
  end.

(** A listener whose emissions [Container.emits] covers. *)
Definition covered (o : Options) (entry : string * Listener) : Prop :=
  match entry.2 with
  | ModelUpdate => truthy (modelProp o) = true
  | Custom eventName =>
      has_length (componentCustomEvents o) = true
      /\ eventName ∈ default [] (componentCustomEvents o)
  end.

(** [navigate] or the warning: what [handleRouterLink] can do. *)
Definition is_router_effect (eff : effect) : bool :=
  is_navigate eff || is_warn eff.

End Vue.

(** ** react-library-output/src/output-react.ts *)

Module React.

Definition nl : string := String "010"%char EmptyString.

Definition GENERATED_DTS : string := "components.d.ts".
Definition IMPORT_TYPES : string := "JSX".

(** The fields of a component descriptor the generator reads. *)
Record ComponentCompilerMeta : Type := {
  tagName : string;
  internal : bool
}.

Record OutputTargetReact : Type := {
  excludeComponents : option (list string);
  proxiesFile : string;
  componentCorePackage : option string;
  modulesDir : option string
}.

(** One entry of the array handed to [config.sys.copy]. *)
Record CopyTask : Type := {
  src : string;
  dest : string;
  warn : bool
}.

(** The host system: [copy] may be missing, and when present it is the
    host's own operation, which may fail. *)
Record Sys : Type := {
  copy : option (list CopyTask -> result unit)
}.

Record Config : Type := {
  rootDir : string;
  sys : option Sys
}.

Record PackageJSON : Type := {
  types : string
}.

(** What the generator does to its host, in order. *)
Inductive HostEffect : Type :=
| WriteFile (path : string) (text : string)
| Copy (tasks : list CopyTask).

(** Modelled from the spec: [sortBy] is imported from [./utils], which is
    not among the sources. The spec says the generator must "sort remaining
    descriptors by tag name for deterministic, diff-friendly output", and
    its example puts [x-a] before [x-b]: ascending order of the key, here
    by insertion, equal keys keeping their order. *)
Fixpoint insertBy {T} (prop : T -> string) (item : T) (sorted : list T) : list T :=
  match sorted with
  | [] => [item]
  | y :: rest =>
      if String.leb (prop item) (prop y) then item :: y :: rest
      else y :: insertBy prop item rest
  end.

Definition sortBy {T} (array : list T) (prop : T -> string) : list T :=
  foldr (insertBy prop) [] array.

(** Ascending order of the sort key. *)
Definition ascending {T} (prop : T -> string) (a b : T) : Prop :=
  String.leb (prop a) (prop b) = true.

(** Upper case of one character: the letters [a] to [z] are moved to
    [A] to [Z], everything else stays. *)
Definition toUpperCase (c : ascii) : ascii :=
  let n := nat_of_ascii c in
  if (97 <=? n)%nat && (n <=? 122)%nat then ascii_of_nat (n - 32) else c.

Definition capitalize (segment : string) : string :=
  match segment with
  | EmptyString => EmptyString
  | String c rest => String (toUpperCase c) rest
  end.

(** Modelled from the spec: [dashToPascalCase] is imported from [./utils],
    which is not among the sources. The spec says "derive a type-safe
    component name from the tag name (kebab-case → PascalCase; e.g.,
    my-button → MyButton)": the tag is cut at its dashes, each segment gets
    an upper-case first letter, and the segments are put together. *)
Definition dashToPascalCase (str : string) : string :=
  join "" (capitalize <$> split "-" str).

(** [getFilteredComponents]; [excludeComponents] defaults to the empty
    list. *)
Definition getFilteredComponents (excludeComponents : option (list string))
    (cmps : list ComponentCompilerMeta) : list ComponentCompilerMeta :=
  let excludeComponents := default [] excludeComponents in
  filter (fun c => negb (bool_decide (tagName c ∈ excludeComponents))
                   && negb (internal c))
         (sortBy cmps tagName).

(** [createComponentDefinition]: an array holding one line. *)
Definition createComponentDefinition (cmpMeta : ComponentCompilerMeta)
    : list string :=
  let tagNameAsPascal := dashToPascalCase (tagName cmpMeta) in
  [ "export const " +:+ tagNameAsPascal
    +:+ " = /* #__PURE__ */createReactComponent<" +:+ IMPORT_TYPES +:+ "."
    +:+ tagNameAsPascal +:+ ", HTML" +:+ tagNameAsPascal
    +:+ "Element>(window, '" +:+ tagName cmpMeta +:+ "', Import"
    +:+ tagNameAsPascal +:+ ");" ].

(** [components.map(createComponentDefinition).join('\n')]: each inner
    array is turned into text by joining its entries with a comma. *)
Definition componentDefinitions (components : list ComponentCompilerMeta)
    : string :=
  join nl (join "," <$> (createComponentDefinition <$> components)).

Section Generator.

(** Collaborators outside the two source files: Node's [path] module and
    [__dirname], and [readPackageJson] and [relativeImport] of [./utils]. *)
Variable path_dirname : string -> string.
Variable path_join : list string -> string.
Variable dirname : string.
Variable readPackageJson : string -> result PackageJSON.
Variable relativeImport : string -> string -> string -> string.

(** [compilerCtx.fs.writeFile], the host's own operation. *)
Variable writeFile : string -> string -> result unit.

(** [generateProxies]: the effects on the host and the outcome. *)
Definition generateProxies (components : list ComponentCompilerMeta)
    (outputTarget : OutputTargetReact) (rootDir : string)
    : list HostEffect * result unit :=
  match readPackageJson rootDir with
  | Throw m => ([], Throw m)
  | Ok pkgData =>
      let distTypesDir := path_dirname (types pkgData) in
      let dtsFilePath := path_join [rootDir; distTypesDir; GENERATED_DTS] in
      let componentsTypeFile :=
        relativeImport (proxiesFile outputTarget) dtsFilePath ".d.ts" in
      let imports :=
        "/* tslint:disable */" +:+ nl +:+ "/* auto-generated react proxies */"
        +:+ nl +:+ "import { createReactComponent } from './createComponent';"
        +:+ nl in
      let typeImports :=
        if negb (truthy (componentCorePackage outputTarget))
        then "import { " +:+ IMPORT_TYPES +:+ " } from '"
             +:+ componentsTypeFile +:+ "';" +:+ nl
        else "import { " +:+ IMPORT_TYPES +:+ " } from '"
             +:+ default "" (componentCorePackage outputTarget) +:+ "';" +:+ nl in
      let importList :=
        join ("," +:+ nl)
          ((fun cmpMeta =>
              let tagNameAsPascal := dashToPascalCase (tagName cmpMeta) in
              "  " +:+ tagNameAsPascal +:+ " as Import" +:+ tagNameAsPascal)
             <$> components) in
      let sourceImports :=
        "import {" +:+ nl +:+ importList +:+ nl +:+ "// @ts-ignore" +:+ nl
        +:+ "} from '"
        +:+ path_join [default "" (componentCorePackage outputTarget);
                       default "" (modulesDir outputTarget)]
        +:+ "';" +:+ nl in
      let final :=
        [imports; typeImports; sourceImports; componentDefinitions components] in
      let finalText := join nl final +:+ nl in
      ([WriteFile (proxiesFile outputTarget) finalText],
       writeFile (proxiesFile outputTarget) finalText)
  end.

Definition NOT_INITIALIZED : string :=
  "stencil is not properly intialized at this step. Notify the developer".

(** [copyResources]. *)
Definition copyResources (config : Config) (outputTarget : OutputTargetReact)
    : list HostEffect * result unit :=
  let directory := path_dirname (proxiesFile outputTarget) in
  let resourcesFilesToCopy := ["utils.ts"; "createComponent.tsx"] in
  match sys config with
  | None => ([], Throw NOT_INITIALIZED)
  | Some s =>
      match copy s with
      | None => ([], Throw NOT_INITIALIZED)
      | Some copy =>
          let tasks :=
            (fun rf => {| src := path_join [dirname; "../src/resources/"; rf];
                          dest := path_join [directory; rf];
                          warn := false |}) <$> resourcesFilesToCopy in
          ([Copy tasks], copy tasks)
      end
  end.

(** [reactProxyOutput]: each [await] runs to its end before the next
    statement; a rejection ends the function. *)
Definition reactProxyOutput (outputTarget : OutputTargetReact)
    (components : list ComponentCompilerMeta) (config : Config)
    : list HostEffect * result unit :=
  let filteredComponents :=
    getFilteredComponents (excludeComponents outputTarget) components in
  let rootDir := rootDir config in
  match generateProxies filteredComponents outputTarget rootDir with
  | (done, Throw m) => (done, Throw m)
  | (done, Ok _) =>
      let '(copied, r) := copyResources config outputTarget in
      (done ++ copied, r)
  end.

End Generator.

End React.

(** ** Sample configurations *)

Module Examples.

Import Vue.

Definition tab : string := String "009"%char EmptyString.

(** A form control bound through [value], updated on [ionChange]. *)
Definition input_options : Options :=
  {| name := "ion-input";
     componentProperties := Some ["value"; "ariaLabel"; "routerDirection"];
     componentCustomEvents := Some ["ionInput"; "ionChange"];
     modelProp := Some "value";
     modelUpdateEvent := OneEvent "ionChange";
     externalModelUpdateEvent := Some "change" |}.

(** The same control with update events but no model property. *)
Definition unbound_options : Options :=
  {| name := "ion-input";
     componentProperties := Some ["value"];
     componentCustomEvents := None;
     modelProp := None;
     modelUpdateEvent := ManyEvents ["ionChange"; "ionInput"];
     externalModelUpdateEvent := None |}.

Definition input_element : Element :=
  {| classList := ["hydrated"; "md"; "hydrated"; "dark"];
     properties := {["value" := VStr "abc"]} |}.

Definition ionChange : Event :=
  {| ev_type := "ionChange"; target := input_element; defaultPrevented := false |}.

Definition click : Event :=
  {| ev_type := "click"; target := input_element; defaultPrevented := false |}.

(** Every declared input left unset. *)
Definition unset_props : gmap string propval :=
  {[ "routerLink" := Data VEmptyProp;
     "value" := Data VEmptyProp;
     "ariaLabel" := Data VEmptyProp;
     "routerDirection" := Data VEmptyProp;
     "modelValue" := Data VEmptyProp ]}.

(** A static [value] and a bound [modelValue] at once. *)
Definition both_props : gmap string propval :=
  {[ "routerLink" := Data VEmptyProp;
     "value" := Data (VStr "static");
     "ariaLabel" := Data VEmptyProp;
     "routerDirection" := Data VEmptyProp;
     "modelValue" := Data (VStr "bound") ]}.

(** A router link with a direction, and a click handler that leaves the
    default alone. *)
Definition link_props : gmap string propval :=
  {[ "routerLink" := Data (VStr "/home");
     "routerDirection" := Data (VStr "forward");
     "value" := Data VEmptyProp;
     "onClick" := Fun (fun _ => false) ]}.


Definition router : NavManager := {| nav_id := 1 |}.

(** A mounted instance that has cached ["abc"] from a native update. *)
Definition cached_instance : Instance :=
  {| modelPropValue := Data (VStr "abc");
     containerRef := Some input_element;
     classes := {["md"]};
     navManager := None |}.

Definition routed_instance : Instance :=
  {| modelPropValue := Data VEmptyProp;
     containerRef := Some input_element;
     classes := ∅;
     navManager := Some router |}.

(** Descriptors out of order, one internal, one to be excluded. *)
Definition descriptors : list React.ComponentCompilerMeta :=
  [ {| React.tagName := "x-b"; React.internal := false |};
    {| React.tagName := "x-hidden"; React.internal := true |};
    {| React.tagName := "x-c"; React.internal := false |};
    {| React.tagName := "x-a"; React.internal := false |} ].

Definition output_target : React.OutputTargetReact :=
  {| React.excludeComponents := Some ["x-c"];
     React.proxiesFile := "src/proxies.ts";
     React.componentCorePackage := Some "core";
     React.modulesDir := None |}.

(** Hosts without a system, without [copy], and with a [copy] that works. *)
Definition bare_config : React.Config :=
  {| React.rootDir := "/repo"; React.sys := None |}.

Definition half_config : React.Config :=
  {| React.rootDir := "/repo"; React.sys := Some {| React.copy := None |} |}.

Definition full_config : React.Config :=
  {| React.rootDir := "/repo";
     React.sys := Some {| React.copy := Some (fun _ => Ok ()) |} |}.

(** Stand-ins for the collaborators of the generator. *)
Definition sample_dirname (p : string) : string := "src".
Definition sample_join (parts : list string) : string := join "/" parts.
Definition sample_package (rootDir : string) : result React.PackageJSON :=
  Ok {| React.types := "dist/types/index.d.ts" |}.
Definition sample_import (from to ext : string) : string := "../dist/types/components".
Definition sample_write (path text : string) : result unit := Ok ().

(** The instance and the node of a render, when it returns. *)
Definition rendered (o : Options) (props : gmap string propval)
    (attrs_class : jsval) (st : Instance) : Instance * VNode :=
  match render o props attrs_class st with
  | (st1, Ok v) => (st1, v)
  | (st1, Throw _) => (st1, {| tag := name o; vprops := ∅ |})
  end.

(** A control whose element carries a class the wrapper once owned. *)
Definition wide_element : Element :=
  {| classList := ["hydrated"; "wide"; "md"]; properties := ∅ |}.

Definition fresh_instance : Instance :=
  {| modelPropValue := Data VEmptyProp;
     containerRef := Some wide_element;
     classes := ∅;
     navManager := None |}.

(** [onClick] declared as a component property and left unset. *)
Definition declared_click_props : gmap string propval :=
  {[ "routerLink" := Data VEmptyProp;
     "onClick" := Data VEmptyProp;
     "value" := Data (VStr "static");
     "ariaLabel" := Data VEmptyProp;
     "modelValue" := Data VEmptyProp ]}.

(** A native [ionInput], which the sample control forwards only. *)
Definition ionInput : Event :=
  {| ev_type := "ionInput"; target := input_element; defaultPrevented := false |}.

(** Two renders in a row: the wrapper's class is first [wide], then [md]. *)
Definition wide_render : Instance * VNode :=
  rendered input_options unset_props (VStr "wide") fresh_instance.

Definition narrow_render : Instance * VNode :=
  rendered input_options unset_props (VStr "md") wide_render.1.

Definition declared_click_render : Instance * VNode :=
  rendered input_options declared_click_props VUndefined fresh_instance.



(** Three renders of the sample control on the instance above. *)
Definition unset_render : Instance * VNode :=
  rendered input_options unset_props VUndefined cached_instance.

Definition both_render : Instance * VNode :=
  rendered input_options both_props VUndefined cached_instance.

Definition classes_render : Instance * VNode :=
  rendered input_options both_props (VStr "md wide") cached_instance.

End Examples.

(** * Properties *)

Import Vue.

(** ** Strings and lists *)

Section JsFacts.

Lemma split_nonempty sep s : split sep s <> [].
Proof.
  destruct s as [|c rest]; simpl; [discriminate|].
  destruct (Ascii.eqb c sep); [discriminate|].
  destruct (split sep rest); discriminate.
Qed.

(** Joining the pieces with the separator gives the string back. *)
Lemma join_split sep s : join (String sep EmptyString) (split sep s) = s.
Proof.
  induction s as [|c rest IH]; simpl; [reflexivity|].
  destruct (Ascii.eqb c sep) eqn:E.
  - apply Ascii.eqb_eq in E. subst c.
    pose proof (split_nonempty sep rest) as Hne.
    destruct (split sep rest) as [|w ws]; [congruence|].
    simpl in *. now rewrite IH.
  - pose proof (split_nonempty sep rest) as Hne.
    destruct (split sep rest) as [|w ws]; [congruence|].
    destruct ws as [|w' ws]; simpl in *; now rewrite <- IH.
Qed.

(** No piece contains the separator. *)
Lemma split_pieces sep s : Forall (fun w => occurs sep w = false) (split sep s).
Proof.
  induction s as [|c rest IH]; simpl.
  - repeat constructor.
  - destruct (Ascii.eqb c sep) eqn:E.
    + constructor; [reflexivity | exact IH].
    + destruct (split sep rest) as [|w ws].
      * repeat constructor. simpl. now rewrite E.
      * inversion IH; subst. constructor; [|assumption].
        simpl. now rewrite E.
Qed.

(** A string without the separator is one piece. *)
Lemma split_no_sep sep s : occurs sep s = false -> split sep s = [s].
Proof.
  induction s as [|c rest IH]; simpl; [reflexivity|].
  intros H. apply orb_false_iff in H as [Hc Hrest].
  rewrite Hc, (IH Hrest). reflexivity.
Qed.

Lemma indexOf_range self c : (-1 <= indexOf self c)%Z.
Proof.
  induction self as [|x rest IH]; simpl; [lia|].
  destruct (String.eqb x c); [lia|].
  destruct (Z.ltb_spec (indexOf rest c) 0); lia.
Qed.

(** [indexOf] finds an entry that occurs. *)
Lemma indexOf_found self c :
  c ∈ self -> exists k, indexOf self c = Z.of_nat k /\ self !! k = Some c.
Proof.
  induction self as [|x rest IH]; intros Hin.
  - inversion Hin.
  - simpl. destruct (String.eqb x c) eqn:E.
    + apply String.eqb_eq in E. subst. exists 0%nat. split; reflexivity.
    + assert (c ∈ rest) as Hrest.
      { apply elem_of_cons in Hin as [->|?]; [|assumption].
        rewrite String.eqb_refl in E. discriminate. }
      destruct (IH Hrest) as (k & Hk & Hlook).
      exists (S k). rewrite Hk.
      destruct (Z.ltb_spec (Z.of_nat k) 0); [lia|].
      split; [lia | exact Hlook].
Qed.

(** In a list without repetition every entry is its own first occurrence. *)
Lemma indexOf_NoDup self k c :
  NoDup self -> self !! k = Some c -> indexOf self c = Z.of_nat k.
Proof.
  intros Hnd. revert k. induction Hnd as [|x rest Hx Hnd IH]; intros k Hk.
  - discriminate.
  - simpl. destruct k as [|k]; simpl in Hk.
    + injection Hk as ->. now rewrite String.eqb_refl.
    + destruct (String.eqb x c) eqn:E.
      * apply String.eqb_eq in E. subst.
        exfalso. apply Hx. eapply list_elem_of_lookup_2; eassumption.
      * rewrite (IH _ Hk).
        destruct (Z.ltb_spec (Z.of_nat k) 0); lia.
Qed.

Lemma indexOf_app_l (l1 l2 : list string) c :
  c ∈ l1 -> indexOf (l1 ++ l2) c = indexOf l1 c.
Proof.
  induction l1 as [|x l1 IH]; intros Hin; [inversion Hin|].
  simpl. destruct (String.eqb x c) eqn:E; [reflexivity|].
  rewrite IH; [reflexivity|].
  apply elem_of_cons in Hin as [->|?]; [|assumption].
  rewrite String.eqb_refl in E. discriminate.
Qed.

Context {A : Type}.
Implicit Types (p : A -> nat -> bool) (l : list A).

(** What [filter] with an index keeps. *)
Lemma filter_from_elem p i l x :
  x ∈ filter_from p i l <->
  exists k, l !! k = Some x /\ p x (i + k)%nat = true.
Proof.
  revert i. induction l as [|y rest IH]; intros i; simpl.
  - split; [intros H; inversion H | intros (k & H & _); discriminate].
  - destruct (p y i) eqn:E.
    + rewrite elem_of_cons, IH. split.
      * intros [->|(k & Hk & Hp)].
        -- exists 0%nat. rewrite Nat.add_0_r. auto.
        -- exists (S k). rewrite Nat.add_succ_r. auto.
      * intros ([|k] & Hk & Hp); simpl in Hk.
        -- left. congruence.
        -- right. exists k. rewrite Nat.add_succ_r in Hp. auto.
    + rewrite IH. split.
      * intros (k & Hk & Hp). exists (S k). rewrite Nat.add_succ_r. auto.
      * intros ([|k] & Hk & Hp); simpl in Hk.
        -- injection Hk as ->. rewrite Nat.add_0_r in Hp. congruence.
        -- exists k. rewrite Nat.add_succ_r in Hp. auto.
Qed.

(** When the callback accepts an entry at one position only, nothing is
    kept twice. *)
Lemma filter_from_NoDup p i l :
  (forall x a b, p x a = true -> p x b = true -> a = b) ->
  NoDup (filter_from p i l).
Proof.
  intros Hp. revert i. induction l as [|y rest IH]; intros i; simpl.
  - constructor.
  - destruct (p y i) eqn:E; [|apply IH].
    constructor; [|apply IH].
    rewrite filter_from_elem. intros (k & _ & Hk).
    specialize (Hp _ _ _ E Hk). lia.
Qed.

(** When the callback accepts every entry where it stands, all is kept. *)
Lemma filter_from_all p i l :
  (forall k x, l !! k = Some x -> p x (i + k)%nat = true) ->
  filter_from p i l = l.
Proof.
  revert i. induction l as [|y rest IH]; intros i H; simpl; [reflexivity|].
  assert (p y i = true) as -> by (specialize (H 0%nat y eq_refl); now rewrite Nat.add_0_r in H).
  f_equal. apply IH. intros k x Hk.
  specialize (H (S k) x Hk). now rewrite Nat.add_succ_r in H.
Qed.

(** When the callback rejects every entry where it stands, nothing is
    kept. *)
Lemma filter_from_none p i l :
  (forall k x, l !! k = Some x -> p x (i + k)%nat = false) ->
  filter_from p i l = [].
Proof.
  revert i. induction l as [|y rest IH]; intros i H; simpl; [reflexivity|].
  assert (p y i = false) as ->
    by (specialize (H 0%nat y eq_refl); now rewrite Nat.add_0_r in H).
  apply IH. intros k x Hk.
  specialize (H (S k) x Hk). now rewrite Nat.add_succ_r in H.
Qed.

Lemma filter_from_app p i l1 l2 :
  filter_from p i (l1 ++ l2)
  = filter_from p i l1 ++ filter_from p (i + length l1) l2.
Proof.
  revert i. induction l1 as [|y l1 IH]; intros i; simpl.
  - now rewrite Nat.add_0_r.
  - rewrite IH, Nat.add_succ_r. now destruct (p y i).
Qed.

End JsFacts.

(** ** Class reconciliation *)

Section Classes.

Implicit Types (st : Instance) (cs : gset string) (ref : option Element).

Lemma getElementClasses_NoDup ref cs defaultClasses :
  NoDup (getElementClasses ref cs defaultClasses).
Proof.
  unfold getElementClasses, filteri. apply filter_from_NoDup.
  intros x a b Ha Hb.
  apply andb_true_iff in Ha as [_ Ha]. apply andb_true_iff in Hb as [_ Hb].
  apply Z.eqb_eq in Ha, Hb. lia.
Qed.

(** The merged list holds exactly the classes of the element (and the
    defaults) that the component does not own. *)
Lemma getElementClasses_elem ref cs defaultClasses c :
  c ∈ getElementClasses ref cs defaultClasses <->
  c ∈ match ref with Some el => classList el | None => [] end ++ defaultClasses
  /\ c ∉ cs.
Proof.
  unfold getElementClasses, filteri. rewrite filter_from_elem.
  set (self := _ ++ defaultClasses). split.
  - intros (k & Hk & Hp). apply andb_true_iff in Hp as [Hc _].
    apply negb_true_iff, bool_decide_eq_false in Hc.
    split; [eapply list_elem_of_lookup_2; eassumption | assumption].
  - intros [Hin Hc]. destruct (indexOf_found self c Hin) as (k & Hk & Hlook).
    exists k. split; [assumption|]. simpl.
    rewrite Hk, Z.eqb_refl, andb_true_r.
    apply negb_true_iff, bool_decide_eq_false. assumption.
Qed.

(** A list that is already reconciled is left as it is. *)
Lemma getElementClasses_fixed el cs :
  NoDup (classList el) -> (forall c, c ∈ classList el -> c ∉ cs) ->
  getElementClasses (Some el) cs [] = classList el.
Proof.
  intros Hnd Hcs. unfold getElementClasses, filteri.
  rewrite app_nil_r. apply filter_from_all. intros k x Hk. simpl.
  rewrite (indexOf_NoDup _ _ _ Hnd Hk), Z.eqb_refl, andb_true_r.
  apply negb_true_iff, bool_decide_eq_false, Hcs.
  eapply list_elem_of_lookup_2; eassumption.
Qed.

(** Once the element carries the merged list followed by classes the
    component owns, reconciling again gives the merged list. *)
Lemma getElementClasses_feedback el cs (merged owned : list string) :
  classList el = merged ++ owned ->
  NoDup merged -> (forall c, c ∈ merged -> c ∉ cs) ->
  (forall c, c ∈ owned -> c ∈ cs) ->
  getElementClasses (Some el) cs [] = merged.
Proof.
  intros Hel Hnd Hm Ho. unfold getElementClasses, filteri.
  rewrite app_nil_r, Hel. set (self := merged ++ owned).
  unfold self at 2. rewrite filter_from_app.
  rewrite filter_from_all, filter_from_none; [apply app_nil_r| |].
  - intros k x Hk. cbn beta.
    replace (negb (bool_decide (x ∈ cs))) with false; [reflexivity|].
    symmetry. apply negb_false_iff, bool_decide_eq_true, Ho.
    eapply list_elem_of_lookup_2; eassumption.
  - intros k x Hk. cbn beta.
    assert (x ∈ merged) as Hin by (eapply list_elem_of_lookup_2; eassumption).
    unfold self. rewrite (indexOf_app_l _ _ _ Hin).
    rewrite (indexOf_NoDup _ _ _ Hnd Hk), Z.eqb_refl, andb_true_r.
    apply negb_true_iff, bool_decide_eq_false, Hm, Hin.
Qed.

(** [classes.add] over a list is the union with the list's entries. *)
Lemma add_all cs (l : list string) :
  foldl (fun acc value => acc ∪ {[value]}) cs l = cs ∪ list_to_set l.
Proof.
  revert cs. induction l as [|x l IH]; intros cs; simpl.
  - now rewrite union_empty_r_L.
  - now rewrite IH, (assoc_L (∪)).
Qed.

Lemma addClasses_classes attrs_class st st1 :
  addClasses attrs_class st = Ok st1 ->
  exists cls, getComponentClasses attrs_class = Ok cls
              /\ st1 = set_classes (classes st ∪ list_to_set cls) st.
Proof.
  unfold addClasses. destruct (getComponentClasses attrs_class) as [cls|m]; simpl.
  - intros [= <-]. exists cls. now rewrite add_all.
  - discriminate.
Qed.

(** Adding the same class input again changes nothing. *)
Lemma addClasses_again attrs_class st st1 :
  addClasses attrs_class st = Ok st1 -> addClasses attrs_class st1 = Ok st1.
Proof.
  intros H. destruct (addClasses_classes _ _ _ H) as (cls & Hcls & ->).
  unfold addClasses. rewrite Hcls. simpl. rewrite add_all. f_equal.
  unfold set_classes. simpl. f_equal.
  now rewrite <- (assoc_L (∪)), (idemp_L (∪)).
Qed.

Lemma render_inv o props attrs_class st st1 v :
  render o props attrs_class st = (st1, Ok v) ->
  addClasses attrs_class
    (set_modelPropValue (prop_get props (propKey (modelProp o))) st) = Ok st1
  /\ v = {| tag := name o;
            vprops := modelPrecedence o props st1
                        (forwardProps props
                           (initialProps (prop_get props "onClick") st1)) |}.
Proof.
  unfold render. destruct (addClasses _ _) as [st'|m]; simpl.
  - intros [= <- <-]. split; reflexivity.
  - intros [= _ ?].
Qed.

Lemma render_modelPropValue o props attrs_class st st1 v :
  render o props attrs_class st = (st1, Ok v) ->
  modelPropValue st1 = prop_get props (propKey (modelProp o)).
Proof.
  intros H. apply render_inv in H as [H _].
  apply addClasses_classes in H as (cls & _ & ->). reflexivity.
Qed.

(** Rendering again with the same inputs gives the same instance and the
    same node. *)
Lemma render_again o props attrs_class st st1 v :
  render o props attrs_class st = (st1, Ok v) ->
  render o props attrs_class st1 = (st1, Ok v).
Proof.
  intros H. pose proof (render_modelPropValue _ _ _ _ _ _ H) as Hm.
  destruct (render_inv _ _ _ _ _ _ H) as [Hadd ->].
  apply addClasses_again in Hadd. unfold render.
  replace (set_modelPropValue (prop_get props (propKey (modelProp o))) st1)
    with st1 by (destruct st1; unfold set_modelPropValue; simpl in *; congruence).
  rewrite Hadd. reflexivity.
Qed.

End Classes.

(** C5. Class reconciliation is duplicate-free and idempotent: the class
    list a render computes for the underlying element has no repeated
    entry and no entry of the wrapper's own class set; it is the list put
    under [class] when [propsToAdd] is built; a second render with the
    same inputs and an unchanged element leaves the instance as it is and
    computes the same list and the same node; and the list stays the same
    when the element has meanwhile taken it over, followed by classes the
    wrapper owns. *)
Theorem class_reconciliation_idempotent
    (o : Options) (props : gmap string propval) (attrs_class : jsval)
    (st st1 : Instance) (v : VNode) :
  render o props attrs_class st = (st1, Ok v) ->
  NoDup (mergedClasses st1)
  /\ (forall c, c ∈ mergedClasses st1 -> c ∉ classes st1)
  /\ initialProps (prop_get props "onClick") st1 !! "class"
     = Some (AClass (mergedClasses st1))
  /\ render o props attrs_class st1 = (st1, Ok v)
  /\ (forall el owned,
        classList el = mergedClasses st1 ++ owned ->
        (forall c, c ∈ owned -> c ∈ classes st1) ->
        mergedClasses (set_containerRef (Some el) st1) = mergedClasses st1).
Proof.
  intros H.
  assert (forall c, c ∈ mergedClasses st1 -> c ∉ classes st1) as Hown.
  { intros c Hc. apply getElementClasses_elem in Hc. tauto. }
  split; [apply getElementClasses_NoDup|].
  split; [exact Hown|]. split; [reflexivity|].
  split; [exact (render_again _ _ _ _ _ _ H)|].
  intros el owned Hel Ho. unfold mergedClasses at 1. cbn [containerRef classes set_containerRef].
  eapply getElementClasses_feedback; eauto using getElementClasses_NoDup.
Qed.

(** A second render of the sample control gives the node of the first. *)
Lemma class_reconciliation_idempotent_witness :
  mergedClasses Examples.classes_render.1 = ["hydrated"; "dark"]
  /\ render Examples.input_options Examples.both_props (VStr "md wide")
       Examples.classes_render.1
     = (Examples.classes_render.1, Ok Examples.classes_render.2).
Proof.
  split; [vm_compute; reflexivity|].
  apply (class_reconciliation_idempotent Examples.input_options
           Examples.both_props (VStr "md wide") Examples.cached_instance).
  vm_compute. reflexivity.
Defined.

(** ** Loops over the own keys of an object *)

Section ForIn.

Context {V W : Type}.
Implicit Types (l : list (string * V)) (acc : gmap string W).

(** A [for ... in] loop that assigns [acc[key] = g value] under a
    condition: what is found under a key afterwards. *)
Lemma for_in_lookup (cond : string -> V -> bool) (g : V -> W) l acc key :
  NoDup l.*1 ->
  let out := foldl (fun acc kv =>
                      let '(k, v) := kv in
                      if cond k v then <[k := g v]> acc else acc) acc l in
  (forall v, (key, v) ∈ l ->
             out !! key = if cond key v then Some (g v) else acc !! key)
  /\ (key ∉ l.*1 -> out !! key = acc !! key).
Proof.
  revert acc. induction l as [|[k v] l IH]; intros acc Hnd; simpl.
  - split; [intros v Hin; inversion Hin | reflexivity].
  - apply NoDup_cons in Hnd as [Hk Hnd].
    destruct (IH (if cond k v then <[k := g v]> acc else acc) Hnd) as [IH1 IH2].
    split.
    + intros v' Hin. apply elem_of_cons in Hin as [[= -> ->]|Hin].
      * rewrite (IH2 Hk). destruct (cond k v); [apply lookup_insert_eq | reflexivity].
      * assert (key <> k) as Hne.
        { intros ->. apply Hk. apply list_elem_of_fmap. exists (k, v'). auto. }
        rewrite (IH1 _ Hin).
        destruct (cond key v'); [reflexivity|].
        destruct (cond k v); [now rewrite lookup_insert_ne | reflexivity].
    + intros Hnot. apply not_elem_of_cons in Hnot as [Hne Hnot].
      rewrite (IH2 Hnot).
      destruct (cond k v); [now rewrite lookup_insert_ne | reflexivity].
Qed.

End ForIn.

Section Forwarding.

Implicit Types (props : gmap string propval) (propsToAdd : gmap string attr).

Lemma hasOwnProperty_Some props key value :
  props !! key = Some value -> hasOwnProperty props key = true.
Proof.
  intros H. unfold hasOwnProperty. apply bool_decide_eq_true. eauto.
Qed.

(** The forwarding loop, key by key. *)
Lemma forwardProps_Some props propsToAdd key value :
  props !! key = Some value ->
  forwardProps props propsToAdd !! key =
    if negb (is_EMPTY_PROP value) || startsWith ARIA_PROP_PREFIX key
    then Some (AProp value) else propsToAdd !! key.
Proof.
  intros H. unfold forwardProps.
  destruct (for_in_lookup
              (fun k v => (hasOwnProperty props k && negb (is_EMPTY_PROP v))
                          || startsWith ARIA_PROP_PREFIX k)
              AProp (map_to_list props) propsToAdd key
              (NoDup_fst_map_to_list props)) as [H1 _].
  rewrite (H1 value) by (now apply elem_of_map_to_list).
  now rewrite (hasOwnProperty_Some _ _ _ H).
Qed.

Lemma forwardProps_None props propsToAdd key :
  props !! key = None ->
  forwardProps props propsToAdd !! key = propsToAdd !! key.
Proof.
  intros H. unfold forwardProps.
  destruct (for_in_lookup
              (fun k v => (hasOwnProperty props k && negb (is_EMPTY_PROP v))
                          || startsWith ARIA_PROP_PREFIX k)
              AProp (map_to_list props) propsToAdd key
              (NoDup_fst_map_to_list props)) as [_ H2].
  apply H2. intros Hin. apply list_elem_of_fmap in Hin as ([k v] & -> & Hin).
  apply elem_of_map_to_list in Hin. simpl in H. congruence.
Qed.

(** [propsToAdd] as first built holds no plain value. *)
Lemma initialProps_no_value oldClick st key v :
  initialProps oldClick st !! key <> Some (AProp v).
Proof.
  unfold initialProps. intros H.
  repeat (apply lookup_insert_Some in H as [[_ H]|[_ H]]; [discriminate|]).
  rewrite lookup_empty in H. discriminate.
Qed.

(** The router payload, key by key. *)
Lemma navigationPayload_event props ev :
  navigationPayload props ev !! "event" = Some (OfEvent ev).
Proof.
  unfold navigationPayload.
  destruct (for_in_lookup
              (fun k v => hasOwnProperty props k
                          && startsWith ROUTER_PROP_PREFIX k
                          && negb (is_EMPTY_PROP v))
              OfProp (map_to_list props) {["event" := OfEvent ev]} "event"
              (NoDup_fst_map_to_list props)) as [H1 H2].
  destruct (props !! "event") as [v|] eqn:E.
  - rewrite (H1 v) by (now apply elem_of_map_to_list).
    rewrite andb_false_r. simpl. apply lookup_singleton_eq.
  - rewrite H2; [apply lookup_singleton_eq|].
    intros Hin. apply list_elem_of_fmap in Hin as ([k v] & Hk & Hin).
    apply elem_of_map_to_list in Hin. simpl in Hk. congruence.
Qed.

Lemma navigationPayload_Some props ev key value :
  key <> "event" -> props !! key = Some value ->
  navigationPayload props ev !! key =
    if startsWith ROUTER_PROP_PREFIX key && negb (is_EMPTY_PROP value)
    then Some (OfProp value) else None.
Proof.
  intros Hne H. unfold navigationPayload.
  destruct (for_in_lookup
              (fun k v => hasOwnProperty props k
                          && startsWith ROUTER_PROP_PREFIX k
                          && negb (is_EMPTY_PROP v))
              OfProp (map_to_list props) {["event" := OfEvent ev]} key
              (NoDup_fst_map_to_list props)) as [H1 _].
  rewrite (H1 value) by (now apply elem_of_map_to_list).
  rewrite (hasOwnProperty_Some _ _ _ H), andb_true_l. clear H1.
  destruct (startsWith ROUTER_PROP_PREFIX key && negb (is_EMPTY_PROP value));
    [reflexivity|].
  now rewrite lookup_singleton_ne.
Qed.

Lemma navigationPayload_None props ev key :
  key <> "event" -> props !! key = None ->
  navigationPayload props ev !! key = None.
Proof.
  intros Hne H. unfold navigationPayload.
  destruct (for_in_lookup
              (fun k v => hasOwnProperty props k
                          && startsWith ROUTER_PROP_PREFIX k
                          && negb (is_EMPTY_PROP v))
              OfProp (map_to_list props) {["event" := OfEvent ev]} key
              (NoDup_fst_map_to_list props)) as [_ H2].
  rewrite H2; [now rewrite lookup_singleton_ne|].
  intros Hin. apply list_elem_of_fmap in Hin as ([k v] & -> & Hin).
  apply elem_of_map_to_list in Hin. simpl in H. congruence.
Qed.

End Forwarding.

(** ** The render closure *)

Section Render.

Implicit Types (o : Options) (props : gmap string propval) (st : Instance).

Lemma modelPrecedence_other o props st propsToAdd key :
  truthy (modelProp o) = false \/ key <> propKey (modelProp o) ->
  modelPrecedence o props st propsToAdd !! key = propsToAdd !! key.
Proof.
  unfold modelPrecedence. intros [->|Hne]; [reflexivity|].
  destruct (truthy (modelProp o)); [|reflexivity].
  destruct (negb (is_EMPTY_PROP (prop_get props MODEL_VALUE)));
    [now rewrite lookup_insert_ne|].
  destruct (negb (is_EMPTY_PROP (modelPropValue st)));
    [now rewrite lookup_insert_ne | reflexivity].
Qed.

Lemma prop_get_Some props key value :
  props !! key = Some value -> prop_get props key = value.
Proof. unfold prop_get. now intros ->. Qed.

Lemma prop_get_EMPTY props key :
  is_EMPTY_PROP (prop_get props key) = true -> props !! key = Some (Data VEmptyProp).
Proof.
  unfold prop_get. destruct (props !! key) as [[[]|]|]; simpl; congruence.
Qed.

End Render.

(** The forwarding loop, for every key the props object holds: the name
    is stored with its value exactly when the value is not the unset
    sentinel or the name starts with [aria]; the node carries what
    [modelPrecedence] makes of the loop's result. *)
Lemma forwarding_loop_keys
    (o : Options) (props : gmap string propval) (attrs_class : jsval)
    (st st1 : Instance) (v : VNode) (key : string) (value : propval) :
  render o props attrs_class st = (st1, Ok v) ->
  props !! key = Some value ->
  let forwarded :=
    forwardProps props (initialProps (prop_get props "onClick") st1) in
  (forwarded !! key = Some (AProp value)
   <-> is_EMPTY_PROP value = false \/ startsWith ARIA_PROP_PREFIX key = true)
  /\ (is_EMPTY_PROP value = true -> startsWith ARIA_PROP_PREFIX key = false ->
      forall x, forwarded !! key <> Some (AProp x))
  /\ vprops v = modelPrecedence o props st1 forwarded
  /\ (truthy (modelProp o) = false \/ key <> propKey (modelProp o) ->
      vprops v !! key = forwarded !! key).
Proof.
  intros Hr Hk forwarded. destruct (render_inv _ _ _ _ _ _ Hr) as [_ ->].
  subst forwarded. cbn [vprops].
  split; [|split; [|split]].
  - rewrite (forwardProps_Some _ _ _ _ Hk).
    destruct (is_EMPTY_PROP value), (startsWith ARIA_PROP_PREFIX key);
      cbn [negb orb]; split; auto.
    + intros H. now apply initialProps_no_value in H.
    + intros [?|?]; discriminate.
  - intros Hv Ha x. rewrite (forwardProps_Some _ _ _ _ Hk), Hv, Ha.
    apply initialProps_no_value.
  - reflexivity.
  - intros H. now apply modelPrecedence_other.
Qed.

(** Under the name of an input, the node holds what the loop stored,
    unless the name is the model property and [modelValue] is set. *)
Lemma node_follows_loop
    (o : Options) (props : gmap string propval) (attrs_class : jsval)
    (st st1 : Instance) (v : VNode) (key : string) (value : propval) :
  render o props attrs_class st = (st1, Ok v) ->
  props !! key = Some value ->
  truthy (modelProp o) && String.eqb key (propKey (modelProp o))
  && negb (is_EMPTY_PROP (prop_get props MODEL_VALUE)) = false ->
  vprops v !! key
  = forwardProps props (initialProps (prop_get props "onClick") st1) !! key.
Proof.
  intros Hr Hk Hover.
  pose proof (render_modelPropValue _ _ _ _ _ _ Hr) as Hm.
  destruct (render_inv _ _ _ _ _ _ Hr) as [_ ->]. cbn [vprops].
  destruct (truthy (modelProp o)) eqn:Ht;
    [|apply modelPrecedence_other; now left].
  destruct (String.eqb key (propKey (modelProp o))) eqn:Hkey;
    [|apply modelPrecedence_other; right; now apply String.eqb_neq].
  apply String.eqb_eq in Hkey. cbn [andb] in Hover.
  unfold modelPrecedence. rewrite Ht, Hover, Hm, <- Hkey.
  rewrite (prop_get_Some _ _ _ Hk).
  destruct (is_EMPTY_PROP value) eqn:Hv; cbn [negb]; [reflexivity|].
  rewrite lookup_insert_eq, (forwardProps_Some _ _ _ _ Hk), Hv. reflexivity.
Qed.

(** C3, as stated, fails at the element: with a static [value] and a
    bound [modelValue] together, the input [value] is not the sentinel,
    yet the element does not receive it with its value; under [value] it
    receives the value of [modelValue]. *)
Lemma static_value_overridden :
  render Examples.input_options Examples.both_props VUndefined
    Examples.cached_instance
  = (Examples.both_render.1, Ok Examples.both_render.2)
  /\ Examples.both_props !! "value" = Some (Data (VStr "static"))
  /\ is_EMPTY_PROP (Data (VStr "static")) = false
  /\ vprops Examples.both_render.2 !! "value"
     = Some (AProp (Data (VStr "bound")))
  /\ vprops Examples.both_render.2 !! "value"
     <> Some (AProp (Data (VStr "static")))
  /\ ~ (forall o props attrs_class st st1 v key value,
          render o props attrs_class st = (st1, Ok v) ->
          props !! key = Some value ->
          (vprops v !! key = Some (AProp value)
           <-> is_EMPTY_PROP value = false
               \/ startsWith ARIA_PROP_PREFIX key = true)).
Proof.
  assert (render Examples.input_options Examples.both_props VUndefined
            Examples.cached_instance
          = (Examples.both_render.1, Ok Examples.both_render.2)) as Hr
    by (vm_compute; reflexivity).
  assert (vprops Examples.both_render.2 !! "value"
          = Some (AProp (Data (VStr "bound")))) as Hnode
    by (vm_compute; reflexivity).
  split; [exact Hr|]. split; [reflexivity|]. split; [reflexivity|].
  split; [exact Hnode|]. split; [rewrite Hnode; discriminate|].
  intros Hall.
  destruct (Hall _ _ _ _ _ _ "value" (Data (VStr "static")) Hr eq_refl)
    as [_ Hback].
  rewrite Hnode in Hback. specialize (Hback (or_introl eq_refl)).
  discriminate.
Qed.

(** C3, amended. Property forwarding. In every render, for every declared
    input (every key the props object holds), the element receives the
    input's name with its value exactly when the value is not the unset
    sentinel or the name starts with [aria], and receives no input's
    value under the name of an input left at the sentinel whose name does
    not start with [aria]. The one exception is the model property while
    [modelValue] is set: under that name the element receives the value
    of [modelValue], whatever the input of that name holds. *)
Theorem property_forwarding_node
    (o : Options) (props : gmap string propval) (attrs_class : jsval)
    (st st1 : Instance) (v : VNode) (key : string) (value : propval) :
  render o props attrs_class st = (st1, Ok v) ->
  props !! key = Some value ->
  let overridden :=
    truthy (modelProp o) && String.eqb key (propKey (modelProp o))
    && negb (is_EMPTY_PROP (prop_get props MODEL_VALUE)) in
  (overridden = false ->
   (vprops v !! key = Some (AProp value)
    <-> is_EMPTY_PROP value = false \/ startsWith ARIA_PROP_PREFIX key = true)
   /\ (is_EMPTY_PROP value = true -> startsWith ARIA_PROP_PREFIX key = false ->
       forall x, vprops v !! key <> Some (AProp x)))
  /\ (overridden = true ->
      vprops v !! key = Some (AProp (prop_get props MODEL_VALUE))).
Proof.
  intros Hr Hk overridden. split.
  - intros Hover. rewrite (node_follows_loop _ _ _ _ _ _ _ _ Hr Hk Hover).
    destruct (forwarding_loop_keys _ _ _ _ _ _ _ _ Hr Hk) as (Hiff & Hnone & _).
    split; assumption.
  - subst overridden. intros Hover.
    apply andb_true_iff in Hover as [Hover Hbound].
    apply andb_true_iff in Hover as [Ht Hkey].
    apply String.eqb_eq in Hkey.
    destruct (render_inv _ _ _ _ _ _ Hr) as [_ ->]. cbn [vprops].
    unfold modelPrecedence. rewrite Ht, Hbound, Hkey. apply lookup_insert_eq.
Qed.

(** On the sample control with every input unset, the element receives
    nothing under [value] and the sentinel under [ariaLabel]; with
    [modelValue] set it receives that under [value]. *)
Lemma property_forwarding_node_witness :
  vprops Examples.unset_render.2 !! "value" <> Some (AProp (Data VEmptyProp))
  /\ vprops Examples.unset_render.2 !! "ariaLabel"
     = Some (AProp (Data VEmptyProp))
  /\ vprops Examples.both_render.2 !! "value"
     = Some (AProp (Data (VStr "bound"))).
Proof.
  assert (render Examples.input_options Examples.unset_props VUndefined
            Examples.cached_instance
          = (Examples.unset_render.1, Ok Examples.unset_render.2)) as Hr
    by (vm_compute; reflexivity).
  assert (render Examples.input_options Examples.both_props VUndefined
            Examples.cached_instance
          = (Examples.both_render.1, Ok Examples.both_render.2)) as Hr'
    by (vm_compute; reflexivity).
  split; [|split].
  - destruct (property_forwarding_node _ _ _ _ _ _ "value" (Data VEmptyProp)
                Hr eq_refl) as [Hplain _].
    destruct (Hplain eq_refl) as [_ Hnone]. apply Hnone; reflexivity.
  - destruct (property_forwarding_node _ _ _ _ _ _ "ariaLabel"
                (Data VEmptyProp) Hr eq_refl) as [Hplain _].
    destruct (Hplain eq_refl) as [Hiff _]. apply Hiff. right. reflexivity.
  - destruct (property_forwarding_node _ _ _ _ _ _ "value"
                (Data (VStr "static")) Hr' eq_refl) as [_ Hover].
    apply Hover. reflexivity.
Defined.

(** C2, as the spec words it, fails: an instance that has cached ["abc"]
    from a native update and renders with [modelValue] and [value] both
    unset forwards nothing under [value]; the render starts by overwriting
    the cache with [props[modelProp]]. *)
Lemma cached_value_not_forwarded :
  render Examples.input_options Examples.unset_props VUndefined
    Examples.cached_instance
  = (Examples.unset_render.1, Ok Examples.unset_render.2)
  /\ is_EMPTY_PROP (prop_get Examples.unset_props MODEL_VALUE) = true
  /\ modelPropValue Examples.cached_instance = Data (VStr "abc")
  /\ is_EMPTY_PROP (modelPropValue Examples.cached_instance) = false
  /\ vprops Examples.unset_render.2 !! "value"
     <> Some (AProp (modelPropValue Examples.cached_instance))
  /\ vprops Examples.unset_render.2 !! "value" = None
  /\ modelPropValue Examples.unset_render.1 = Data VEmptyProp.
Proof. vm_compute. repeat split. discriminate. Qed.

(** C2, amended. Model-value precedence. Every render of a wrapper with a
    model property first overwrites the cached model value with the
    wrapper's own input of that name; a value cached by a native update
    does not survive. Then: a [modelValue] input that is not the sentinel
    is forwarded as the model property; otherwise the re-read input, when
    it is not the sentinel, is forwarded; otherwise the block adds nothing
    to what property forwarding stored, and no value stands under the
    model property unless its name starts with [aria]. A static
    [modelValue] so wins over the input and over anything cached. *)
Theorem model_value_precedence
    (o : Options) (props : gmap string propval) (attrs_class : jsval)
    (st st1 : Instance) (v : VNode) :
  truthy (modelProp o) = true ->
  render o props attrs_class st = (st1, Ok v) ->
  let mp := propKey (modelProp o) in
  let bound := prop_get props MODEL_VALUE in
  let static := prop_get props mp in
  modelPropValue st1 = static
  /\ (is_EMPTY_PROP bound = false -> vprops v !! mp = Some (AProp bound))
  /\ (is_EMPTY_PROP bound = true -> is_EMPTY_PROP static = false ->
      vprops v !! mp = Some (AProp static))
  /\ (is_EMPTY_PROP bound = true -> is_EMPTY_PROP static = true ->
      vprops v = forwardProps props (initialProps (prop_get props "onClick") st1)
      /\ (startsWith ARIA_PROP_PREFIX mp = false ->
          forall x, vprops v !! mp <> Some (AProp x))).
Proof.
  intros Ht Hr mp bound static.
  pose proof (render_modelPropValue _ _ _ _ _ _ Hr) as Hm.
  destruct (render_inv _ _ _ _ _ _ Hr) as [_ ->]. cbn [vprops].
  unfold modelPrecedence. rewrite Ht, Hm. fold mp bound static.
  split; [reflexivity|]. split; [|split].
  - intros ->. cbn [negb]. apply lookup_insert_eq.
  - intros -> ->. cbn [negb]. apply lookup_insert_eq.
  - intros Hb Hs. rewrite Hb, Hs. cbn [negb]. split; [reflexivity|].
    intros Ha x. apply prop_get_EMPTY in Hs.
    rewrite (forwardProps_Some _ _ _ _ Hs), Ha. cbn [is_EMPTY_PROP negb orb].
    apply initialProps_no_value.
Qed.

(** With a static [value] and a bound [modelValue] together, the bound
    value is what the element receives. *)
Lemma model_value_precedence_witness :
  vprops Examples.both_render.2 !! "value"
  = Some (AProp (Data (VStr "bound"))).
Proof.
  apply (model_value_precedence Examples.input_options Examples.both_props
           VUndefined Examples.cached_instance Examples.both_render.1
           Examples.both_render.2).
  - reflexivity.
  - vm_compute. reflexivity.
  - reflexivity.
Defined.

(** ** The wrapper's own classes *)

(** C10, as stated, fails: [getComponentClasses] is not total. A class
    input of [false] is neither [undefined] nor [null], so [split] is
    looked up on it, is not a function, and the call throws. *)
Lemma getComponentClasses_not_total :
  getComponentClasses (VBool false)
    = Throw "TypeError: classes.split is not a function"
  /\ ~ (forall classes, exists cls, getComponentClasses classes = Ok cls).
Proof.
  split; [reflexivity|].
  intros H. destruct (H (VBool false)) as [cls Hcls]. discriminate.
Qed.

(** C10, amended. [getComponentClasses] returns exactly on class inputs
    that are [undefined], [null] or a string, and throws on every other
    value. On [undefined] and [null] it yields the empty list. On a string
    it splits at the single space character and nowhere else: the pieces
    joined by a space give the string back, no piece holds a space, and a
    string without a space, whatever other white space it holds, is one
    class. *)
Theorem getComponentClasses_spec :
  getComponentClasses VUndefined = Ok []
  /\ getComponentClasses VNull = Ok []
  /\ (forall s,
        getComponentClasses (VStr s) = Ok (split " " s)
        /\ join " " (split " " s) = s
        /\ Forall (fun w => occurs " " w = false) (split " " s)
        /\ (occurs " " s = false -> split " " s = [s]))
  /\ (forall classes,
        is_ok (getComponentClasses classes) = true
        <-> classes = VUndefined \/ classes = VNull
            \/ exists s, classes = VStr s)
  /\ getComponentClasses (VStr ("a" +:+ Examples.tab +:+ "b c"))
     = Ok ["a" +:+ Examples.tab +:+ "b"; "c"].
Proof.
  split; [reflexivity|]. split; [reflexivity|]. split; [|split].
  - intros s. split; [reflexivity|]. split; [apply join_split|].
    split; [apply split_pieces | apply split_no_sep].
  - intros classes. split.
    + destruct classes; simpl; try discriminate; eauto.
    + intros [->|[->|[s ->]]]; reflexivity.
  - reflexivity.
Qed.

(** A tab does not separate classes. *)
Lemma getComponentClasses_spec_witness :
  split " " ("a" +:+ Examples.tab +:+ "b") = ["a" +:+ Examples.tab +:+ "b"].
Proof.
  destruct getComponentClasses_spec as (_ & _ & H & _).
  destruct (H ("a" +:+ Examples.tab +:+ "b")) as (_ & _ & _ & Hone).
  apply Hone. reflexivity.
Defined.

(** ** Model-update listeners *)

Section Listeners.

Implicit Types (o : Options) (e : Event) (st : Instance).

Lemma modelListener_run o e st :
  modelListener o e st =
    (set_modelPropValue (readModel o e) st,
     Emit UPDATE_VALUE_EVENT (OfProp (readModel o e)) (readModel o e)
       :: externalEmission o e (readModel o e)).
Proof.
  unfold modelListener, externalEmission, emit. cbn [modelPropValue set_modelPropValue].
  destruct (externalModelUpdateEvent o) as [ext|]; [|reflexivity].
  destruct (truthy (Some ext)); reflexivity.
Qed.

Lemma externalEmission_sees o e v : Forall (sees v) (externalEmission o e v).
Proof.
  unfold externalEmission. destruct (externalModelUpdateEvent o) as [ext|];
    [destruct (truthy (Some ext))|]; repeat constructor.
  intros seen [= <-]. reflexivity.
Qed.

(** Once the cache holds the value read off [e], every listener run for
    [e] leaves it there and emits under it. *)
Lemma runListener_cached o l e st :
  l = ModelUpdate \/ modelPropValue st = readModel o e ->
  modelPropValue (runListener o l e st).1 = readModel o e
  /\ Forall (sees (readModel o e)) (runListener o l e st).2.
Proof.
  destruct l as [|eventName]; cbn [runListener].
  - intros _. rewrite modelListener_run. cbn [fst snd]. split; [reflexivity|].
    constructor; [intros seen [= <-]; reflexivity | apply externalEmission_sees].
  - intros [?|Hst]; [discriminate|]. unfold customListener, emit. cbn [fst snd].
    split; [assumption|]. repeat constructor. intros seen [= <-]. assumption.
Qed.

Lemma dispatch_cached o listeners e st :
  modelPropValue st = readModel o e ->
  modelPropValue (dispatch o listeners e st).1 = readModel o e
  /\ Forall (sees (readModel o e)) (dispatch o listeners e st).2.
Proof.
  revert st. induction listeners as [|[eventName l] rest IH]; intros st Hst;
    cbn [dispatch].
  - split; [assumption | constructor].
  - destruct (String.eqb eventName (ev_type e)); [|apply IH, Hst].
    destruct (runListener_cached o l e st (or_intror Hst)) as [H1 Hout1].
    destruct (runListener o l e st) as [st1 out1]. cbn [fst snd] in *.
    destruct (IH st1 H1) as [H2 Hout2].
    destruct (dispatch o rest e st1) as [st2 out2]. cbn [fst snd] in *.
    split; [assumption | now apply Forall_app].
Qed.

(** When [e]'s type is among the model-update names, the first listener
    to run for [e] is a model listener, whatever was added after the
    model listeners. *)
Lemma dispatch_model_first o (names : list string) others e st :
  ev_type e ∈ names ->
  exists remaining,
    dispatch o (((fun n => (n, ModelUpdate)) <$> names) ++ others) e st =
      ((dispatch o remaining e (modelListener o e st).1).1,
       (modelListener o e st).2
         ++ (dispatch o remaining e (modelListener o e st).1).2).
Proof.
  induction names as [|n names IH]; intros Hin; [inversion Hin|].
  cbn [fmap list_fmap app dispatch].
  destruct (String.eqb n (ev_type e)) eqn:E.
  - exists (((fun n => (n, ModelUpdate)) <$> names) ++ others).
    cbn [runListener]. destruct (modelListener o e st) as [st1 out1].
    cbn [fst snd]. destruct (dispatch o _ e st1). reflexivity.
  - apply IH. apply elem_of_cons in Hin as [Heq|Hin]; [|assumption].
    subst n. rewrite String.eqb_refl in E. discriminate.
Qed.

Lemma model_listener_added o el eventName :
  truthy_events (modelUpdateEvent o) = true ->
  eventName ∈ eventsNames (modelUpdateEvent o) ->
  (eventName, ModelUpdate) ∈ onVnodeBeforeMount o (Some el).
Proof.
  intros Ht Hin. unfold onVnodeBeforeMount. rewrite Ht.
  apply elem_of_app. left. apply list_elem_of_fmap. eauto.
Qed.

(** A firing of a model-update event on the mounted wrapper. *)
Lemma model_update_firing o el e st :
  truthy_events (modelUpdateEvent o) = true ->
  ev_type e ∈ eventsNames (modelUpdateEvent o) ->
  let fired := dispatch o (onVnodeBeforeMount o (Some el)) e st in
  (exists later,
      fired.2 = Emit UPDATE_VALUE_EVENT (OfProp (readModel o e)) (readModel o e)
                  :: externalEmission o e (readModel o e) ++ later)
  /\ modelPropValue fired.1 = readModel o e
  /\ Forall (sees (readModel o e)) fired.2.
Proof.
  intros Ht Hin fired. subst fired. unfold onVnodeBeforeMount. rewrite Ht.
  destruct (dispatch_model_first o _
              (if has_length (componentCustomEvents o)
               then (fun eventName => (eventName, Custom eventName))
                      <$> default [] (componentCustomEvents o)
               else []) e st Hin) as [remaining ->].
  rewrite modelListener_run. cbn [fst snd].
  destruct (dispatch_cached o remaining e (set_modelPropValue (readModel o e) st)
              eq_refl) as [Hst Hout].
  split; [eexists; reflexivity|]. split; [assumption|].
  constructor; [intros seen [= <-]; reflexivity|].
  apply Forall_app. split; [apply externalEmission_sees | assumption].
Qed.

End Listeners.

(** C1. Ordering of a model update. For a wrapper with a model property
    and at least one model-update event name, a model listener is added
    for every such name at mount. On a firing, the listener stores the
    value read from the event target's model property in the cache and
    emits [update:modelValue] with it; only after that, and only when an
    external event is configured, it emits that event with the native
    event as its argument. The firing as a whole starts with these
    emissions, ends with the value cached, and every emission made during
    it, the external one included, finds that value in the cache. *)
Theorem model_update_ordering
    (o : Options) (el : Element) (e : Event) (st : Instance) :
  truthy (modelProp o) = true ->
  truthy_events (modelUpdateEvent o) = true ->
  ev_type e ∈ eventsNames (modelUpdateEvent o) ->
  let value := Data (element_get (target e) (propKey (modelProp o))) in
  let fired := dispatch o (onVnodeBeforeMount o (Some el)) e st in
  (ev_type e, ModelUpdate) ∈ onVnodeBeforeMount o (Some el)
  /\ modelListener o e st =
       (set_modelPropValue value st,
        Emit UPDATE_VALUE_EVENT (OfProp value) value
          :: match externalModelUpdateEvent o with
             | Some ext =>
                 if truthy (Some ext) then [Emit ext (OfEvent e) value] else []
             | None => []
             end)
  /\ (exists later,
        fired.2 = Emit UPDATE_VALUE_EVENT (OfProp value) value
                    :: externalEmission o e value ++ later)
  /\ modelPropValue fired.1 = value
  /\ Forall (fun eff => forall seen, seen_by eff = Some seen -> seen = value)
            fired.2.
Proof.
  intros _ Ht Hin value fired.
  split; [now apply model_listener_added|].
  split; [apply modelListener_run|].
  exact (model_update_firing o el e st Ht Hin).
Qed.

(** The spec's example: [ionChange] on a target whose [value] is ["abc"]
    emits [update:modelValue] with ["abc"], then the external event, and
    leaves ["abc"] cached. *)
Lemma model_update_ordering_witness :
  modelListener Examples.input_options Examples.ionChange Examples.routed_instance
  = (set_modelPropValue (Data (VStr "abc")) Examples.routed_instance,
     [Emit "update:modelValue" (OfProp (Data (VStr "abc"))) (Data (VStr "abc"));
      Emit "change" (OfEvent Examples.ionChange) (Data (VStr "abc"))]).
Proof.
  destruct (model_update_ordering Examples.input_options Examples.input_element
              Examples.ionChange Examples.routed_instance)
    as (_ & H & _).
  - reflexivity.
  - reflexivity.
  - vm_compute. left.
  - exact H.
Defined.

(** C9. Without a model property the model wiring is still in place: a
    configured model-update event name gets its listener at mount, and
    every firing emits [update:modelValue] first. The argument is what
    reading the property named by the absent [modelProp] off the target
    gives, that is the target's ["undefined"] entry: [undefined] on any
    element without such a property. *)
Theorem unbound_model_update
    (o : Options) (el : Element) (e : Event) (st : Instance) :
  modelProp o = None ->
  truthy_events (modelUpdateEvent o) = true ->
  ev_type e ∈ eventsNames (modelUpdateEvent o) ->
  let value := Data (element_get (target e) "undefined") in
  let fired := dispatch o (onVnodeBeforeMount o (Some el)) e st in
  (ev_type e, ModelUpdate) ∈ onVnodeBeforeMount o (Some el)
  /\ (exists later,
        fired.2 = Emit UPDATE_VALUE_EVENT (OfProp value) value :: later)
  /\ (properties (target e) !! "undefined" = None ->
      value = Data VUndefined
      /\ (modelListener o e st).2
         = Emit UPDATE_VALUE_EVENT (OfProp (Data VUndefined)) (Data VUndefined)
             :: externalEmission o e (Data VUndefined)).
Proof.
  intros Hm Ht Hin value fired.
  assert (value = Data (element_get (target e) (propKey (modelProp o)))) as Hv
    by (subst value; now rewrite Hm).
  split; [now apply model_listener_added|]. split.
  - destruct (model_update_firing o el e st Ht Hin) as [[later Hl] _].
    unfold readModel in Hl. rewrite <- Hv in Hl. eexists. exact Hl.
  - intros Hnone.
    assert (value = Data VUndefined) as Hu
      by (subst value; unfold element_get; now rewrite Hnone).
    split; [exact Hu|].
    rewrite modelListener_run. unfold readModel. rewrite <- Hv, Hu. reflexivity.
Qed.

(** On the sample control without a model property, [ionChange] emits
    [update:modelValue] with [undefined]. *)
Lemma unbound_model_update_witness :
  (modelListener Examples.unbound_options Examples.ionChange
     Examples.routed_instance).2
  = [Emit "update:modelValue" (OfProp (Data VUndefined)) (Data VUndefined)].
Proof.
  destruct (unbound_model_update Examples.unbound_options Examples.input_element
              Examples.ionChange Examples.routed_instance)
    as (_ & _ & H).
  - reflexivity.
  - reflexivity.
  - vm_compute. left.
  - destruct H as [_ H]; [reflexivity | exact H].
Defined.

(** ** Click interception *)

Section Clicks.

Implicit Types (props : gmap string propval) (st : Instance) (ev : Event).

(** [handleClick] when [oldClick] is [undefined] or a function. *)
Lemma handleClick_run oldClick props st ev :
  is_undefined oldClick = true \/ (exists h, oldClick = Fun h) ->
  handleClick oldClick props st ev =
    Ok (clicked oldClick ev,
        called oldClick ev
          ++ (if negb (defaultPrevented (clicked oldClick ev))
              then handleRouterLink props st (clicked oldClick ev) else [])).
Proof.
  intros [Hu|[h ->]]; unfold handleClick.
  - rewrite Hu. destruct oldClick as [[]|]; try discriminate.
    cbn. destruct (defaultPrevented ev); reflexivity.
  - cbn. destruct (defaultPrevented ev || h ev); reflexivity.
Qed.

Lemma handleRouterLink_navigate props st ev nav p :
  Navigate nav p ∈ handleRouterLink props st ev <->
  is_EMPTY_PROP (prop_get props ROUTER_LINK_VALUE) = false
  /\ navManager st = Some nav /\ p = navigationPayload props ev.
Proof.
  unfold handleRouterLink.
  destruct (is_EMPTY_PROP (prop_get props ROUTER_LINK_VALUE)).
  - split; [intros H; inversion H | intros [? _]; discriminate].
  - destruct (navManager st) as [nav'|].
    + rewrite list_elem_of_singleton. split.
      * intros [= -> ->]. auto.
      * intros (_ & [= ->] & ->). reflexivity.
    + rewrite list_elem_of_singleton. split; [discriminate|].
      intros (_ & ? & _). discriminate.
Qed.



End Clicks.

(** [handleClick] closed over a caller's handler: it first runs that
    handler on the event. Afterwards navigation is invoked exactly when
    the event's default is not prevented, the [routerLink] input is not
    the sentinel and a navigation host is there, and nothing else happens
    besides. The payload holds the event under [event] and, beyond that,
    exactly the inputs whose name starts with [router] and whose value is
    not the sentinel, each under its name. *)
Lemma handleClick_caller_first
    (props : gmap string propval) (st : Instance) (ev : Event)
    (h : Event -> bool) :
  prop_get props "onClick" = Fun h ->
  let ev' := after_handler (h ev) ev in
  let go := negb (defaultPrevented ev')
            && negb (is_EMPTY_PROP (prop_get props ROUTER_LINK_VALUE)) in
  exists out,
    initialProps (prop_get props "onClick") st !! "onClick"
      = Some (AHandleClick (Fun h))
    /\ handleClick (prop_get props "onClick") props st ev
       = Ok (ev', Call h ev :: out)
    /\ (forall nav, go = true -> navManager st = Some nav ->
                    out = [Navigate nav (navigationPayload props ev')])
    /\ ((exists nav p, Navigate nav p ∈ out)
        <-> go = true /\ is_Some (navManager st))
    /\ navigationPayload props ev' !! "event" = Some (OfEvent ev')
    /\ (forall key value, key <> "event" -> props !! key = Some value ->
          navigationPayload props ev' !! key =
            if startsWith ROUTER_PROP_PREFIX key && negb (is_EMPTY_PROP value)
            then Some (OfProp value) else None)
    /\ (forall key, key <> "event" -> props !! key = None ->
          navigationPayload props ev' !! key = None).
Proof.
  intros Hh ev' go. rewrite Hh.
  rewrite (handleClick_run (Fun h) props st ev) by (right; eauto).
  cbn [clicked called app]. fold ev'.
  eexists. split; [reflexivity|]. split; [reflexivity|].
  split; [|split; [|split; [|split]]].
  - subst go. intros nav Hgo Hnav. apply andb_true_iff in Hgo as [-> Hrl].
    apply negb_true_iff in Hrl. unfold handleRouterLink. now rewrite Hrl, Hnav.
  - subst go. destruct (negb (defaultPrevented ev')); cbn [andb].
    + split.
      * intros (nav & p & Hin). apply handleRouterLink_navigate in Hin
          as (-> & -> & _). split; [reflexivity | eauto].
      * intros [Hrl [nav Hnav]]. apply negb_true_iff in Hrl.
        exists nav, (navigationPayload props ev').
        apply handleRouterLink_navigate. auto.
    + split; [intros (nav & p & Hin); inversion Hin | intros [? _]; discriminate].
  - apply navigationPayload_event.
  - intros key value. apply navigationPayload_Some.
  - intros key. apply navigationPayload_None.
Qed.

(** The spec's example: [routerLink] ["/home"], [routerDirection]
    ["forward"], a handler that does not prevent the default, and a
    navigation host. *)
Lemma handleClick_caller_first_example :
  handleClick (prop_get Examples.link_props "onClick") Examples.link_props
    Examples.routed_instance Examples.click
  = Ok (Examples.click,
        [Call (fun _ => false) Examples.click;
         Navigate Examples.router
           {[ "event" := OfEvent Examples.click;
              "routerLink" := OfProp (Data (VStr "/home"));
              "routerDirection" := OfProp (Data (VStr "forward")) ]}]).
Proof.
  destruct (handleClick_caller_first Examples.link_props
              Examples.routed_instance Examples.click (fun _ => false) eq_refl)
    as (out & _ & H & Hnav & _).
  rewrite H, (Hnav Examples.router eq_refl eq_refl).
  vm_compute. reflexivity.
Defined.




(** ** The order on tag names *)

Section StringOrder.

Lemma ascii_compare_refl (a : ascii) : Ascii.compare a a = Eq.
Proof. apply N.compare_refl. Qed.

Lemma string_compare_refl (s : string) : String.compare s s = Eq.
Proof.
  induction s as [|a s IH]; simpl; [reflexivity|].
  now rewrite ascii_compare_refl.
Qed.

Lemma string_compare_lt_trans (a b c : string) :
  String.compare a b = Lt -> String.compare b c = Lt -> String.compare a c = Lt.
Proof.
  revert b c. induction a as [|x a IH]; intros [|y b] [|z c]; simpl;
    try discriminate; try reflexivity.
  unfold Ascii.compare.
  destruct (N.compare_spec (N_of_ascii x) (N_of_ascii y)) as [Hxy|Hxy|Hxy];
    try discriminate;
    destruct (N.compare_spec (N_of_ascii y) (N_of_ascii z)) as [Hyz|Hyz|Hyz];
    try discriminate;
    destruct (N.compare_spec (N_of_ascii x) (N_of_ascii z)) as [Hxz|Hxz|Hxz];
    try lia; try reflexivity.
  apply IH.
Qed.

Lemma string_leb_lt_eq (a b : string) :
  String.leb a b = true <-> String.compare a b = Lt \/ a = b.
Proof.
  unfold String.leb. split.
  - destruct (String.compare a b) eqn:E; try discriminate; intros _; auto.
    right. now apply String.compare_eq_iff.
  - intros [->| ->]; [reflexivity|]. now rewrite string_compare_refl.
Qed.

Lemma string_leb_trans (a b c : string) :
  String.leb a b = true -> String.leb b c = true -> String.leb a c = true.
Proof.
  rewrite !string_leb_lt_eq. intros [Hab| ->] [Hbc| ->]; auto.
  left. eapply string_compare_lt_trans; eassumption.
Qed.

Lemma string_leb_false (a b : string) :
  String.leb a b = false -> String.leb b a = true.
Proof.
  intros H. destruct (String.leb_total a b) as [H'|H']; congruence.
Qed.

End StringOrder.

(** ** Sorting and filtering descriptors *)

Section SortBy.

Context {T : Type} (prop : T -> string).

Local Abbreviation ascending := (React.ascending prop).

Lemma insertBy_Permutation item sorted :
  React.insertBy prop item sorted ≡ₚ item :: sorted.
Proof.
  induction sorted as [|y rest IH]; simpl; [reflexivity|].
  destruct (String.leb (prop item) (prop y)); [reflexivity|].
  rewrite IH. apply Permutation_swap.
Qed.

Lemma sortBy_Permutation array : React.sortBy array prop ≡ₚ array.
Proof.
  induction array as [|x array IH]; simpl; [reflexivity|].
  rewrite insertBy_Permutation. now rewrite IH.
Qed.

Lemma insertBy_sorted item sorted :
  StronglySorted ascending sorted ->
  StronglySorted ascending (React.insertBy prop item sorted).
Proof.
  induction sorted as [|y rest IH]; intros Hs; simpl.
  - repeat constructor.
  - apply StronglySorted_inv in Hs as [Hrest Hy].
    destruct (String.leb (prop item) (prop y)) eqn:E.
    + constructor; [now constructor|].
      constructor; [exact E|].
      eapply Forall_impl; [exact Hy|].
      intros z Hz. unfold ascending in *. eapply string_leb_trans; eassumption.
    + constructor; [now apply IH|].
      rewrite insertBy_Permutation. constructor; [|exact Hy].
      now apply string_leb_false.
Qed.

Lemma sortBy_sorted array : StronglySorted ascending (React.sortBy array prop).
Proof.
  induction array as [|x array IH]; simpl; [constructor|].
  now apply insertBy_sorted.
Qed.

Lemma filter_sorted (P : T -> Prop) `{!forall x, Decision (P x)} l :
  StronglySorted ascending l -> StronglySorted ascending (filter P l).
Proof.
  induction l as [|x l IH]; intros Hs; [constructor|].
  apply StronglySorted_inv in Hs as [Hl Hx].
  rewrite filter_cons. destruct (decide (P x)); [|now apply IH].
  constructor; [now apply IH|].
  apply Forall_forall. intros z Hz. apply list_elem_of_filter in Hz as [_ Hz].
  rewrite Forall_forall in Hx. now apply Hx.
Qed.

End SortBy.

(** ** Component names *)

Section Pascal.

Lemma toUpperCase_not_dash (c : ascii) :
  Ascii.eqb c "-" = false -> Ascii.eqb (React.toUpperCase c) "-" = false.
Proof.
  intros H. unfold React.toUpperCase.
  destruct ((97 <=? nat_of_ascii c)%nat && (nat_of_ascii c <=? 122)%nat) eqn:E;
    [|exact H].
  apply andb_true_iff in E as [Hlo Hhi].
  apply Nat.leb_le in Hlo, Hhi.
  apply Ascii.eqb_neq. intros Heq.
  apply (f_equal nat_of_ascii) in Heq.
  rewrite nat_ascii_embedding in Heq by lia.
  change (nat_of_ascii "-") with 45%nat in Heq. lia.
Qed.

Lemma capitalize_no_dash (segment : string) :
  occurs "-" segment = false -> occurs "-" (React.capitalize segment) = false.
Proof.
  destruct segment as [|c rest]; [reflexivity|]. simpl.
  intros H. apply orb_false_iff in H as [Hc Hrest].
  now rewrite (toUpperCase_not_dash c Hc), Hrest.
Qed.

Lemma occurs_append c (a b : string) :
  occurs c (a +:+ b) = occurs c a || occurs c b.
Proof.
  induction a as [|d a IH]; simpl; [reflexivity|].
  now rewrite IH, orb_assoc.
Qed.

Lemma occurs_join_empty c (pieces : list string) :
  Forall (fun w => occurs c w = false) pieces ->
  occurs c (join "" pieces) = false.
Proof.
  induction 1 as [|w ws Hw Hws IH]; [reflexivity|].
  destruct ws as [|w' ws]; [exact Hw|].
  change (join "" (w :: w' :: ws)) with (w +:+ "" +:+ join "" (w' :: ws)).
  rewrite !occurs_append, Hw, IH. reflexivity.
Qed.

(** A derived component name holds no dash. *)
Lemma dashToPascalCase_no_dash (str : string) :
  occurs "-" (React.dashToPascalCase str) = false.
Proof.
  unfold React.dashToPascalCase. apply occurs_join_empty.
  apply Forall_fmap. eapply Forall_impl; [apply split_pieces|].
  intros w Hw. now apply capitalize_no_dash.
Qed.

(** Upper case only ever produces a letter [A] to [Z] that was not
    there. *)
Lemma toUpperCase_keeps_out (ch c : ascii) :
  (nat_of_ascii ch < 65 \/ 90 < nat_of_ascii ch)%nat ->
  Ascii.eqb c ch = false -> Ascii.eqb (React.toUpperCase c) ch = false.
Proof.
  intros Hch H. unfold React.toUpperCase.
  destruct ((97 <=? nat_of_ascii c)%nat && (nat_of_ascii c <=? 122)%nat) eqn:E;
    [|exact H].
  apply andb_true_iff in E as [Hlo Hhi].
  apply Nat.leb_le in Hlo, Hhi.
  apply Ascii.eqb_neq. intros Heq.
  apply (f_equal nat_of_ascii) in Heq.
  rewrite nat_ascii_embedding in Heq by lia. lia.
Qed.

(** Cutting a string brings no character into a piece. *)
Lemma split_keeps_out ch sep (s : string) :
  occurs ch s = false -> Forall (fun w => occurs ch w = false) (split sep s).
Proof.
  induction s as [|c rest IH]; intros H; cbn [split].
  - repeat constructor.
  - cbn [occurs] in H. apply orb_false_iff in H as [Hc Hrest].
    specialize (IH Hrest).
    destruct (Ascii.eqb c sep); [constructor; [reflexivity | exact IH]|].
    destruct (split sep rest) as [|w ws].
    + repeat constructor. cbn [occurs]. now rewrite Hc.
    + inversion IH as [|? ? Hw Hws]; subst. constructor; [|exact Hws].
      cbn [occurs]. now rewrite Hc, Hw.
Qed.

(** A derived component name holds no character that is neither in the
    tag nor a letter [A] to [Z]. *)
Lemma dashToPascalCase_keeps_out ch (str : string) :
  (nat_of_ascii ch < 65 \/ 90 < nat_of_ascii ch)%nat ->
  occurs ch str = false -> occurs ch (React.dashToPascalCase str) = false.
Proof.
  intros Hch H. unfold React.dashToPascalCase. apply occurs_join_empty.
  apply Forall_fmap. eapply Forall_impl; [exact (split_keeps_out ch "-" str H)|].
  intros [|c w]; [reflexivity|]. cbn [React.capitalize occurs compose].
  intros Hw. apply orb_false_iff in Hw as [Hc Hw].
  now rewrite (toUpperCase_keeps_out ch c Hch Hc), Hw.
Qed.

(** A tag without a dash is one segment. *)
Lemma dashToPascalCase_segment (w : string) :
  occurs "-" w = false -> React.dashToPascalCase w = React.capitalize w.
Proof.
  intros H. unfold React.dashToPascalCase. now rewrite (split_no_sep _ _ H).
Qed.

End Pascal.

(** ** The text of the definitions *)

Section Lines.

Lemma split_prefix sep (w rest : string) :
  occurs sep w = false ->
  split sep (w +:+ String sep rest) = w :: split sep rest.
Proof.
  induction w as [|c w IH]; simpl.
  - intros _. now rewrite Ascii.eqb_refl.
  - intros H. apply orb_false_iff in H as [Hc Hw]. now rewrite Hc, IH.
Qed.

(** Cutting a joined text at the separator gives the pieces back. *)
Lemma split_join sep (pieces : list string) :
  pieces <> [] -> Forall (fun w => occurs sep w = false) pieces ->
  split sep (join (String sep EmptyString) pieces) = pieces.
Proof.
  intros Hne Hall. induction Hall as [|w ws Hw Hws IH]; [congruence|].
  destruct ws as [|w' ws]; [now apply split_no_sep|].
  change (join (String sep EmptyString) (w :: w' :: ws))
    with (w +:+ String sep (join (String sep EmptyString) (w' :: ws))).
  rewrite (split_prefix _ _ _ Hw), IH by discriminate. reflexivity.
Qed.

End Lines.

(** ** Names segment by segment *)

Section Segments.

Lemma append_assoc (a b c : string) : (a +:+ b) +:+ c = a +:+ b +:+ c.
Proof.
  induction a as [|x a IH]; [reflexivity|].
  change (String x ((a +:+ b) +:+ c) = String x (a +:+ b +:+ c)).
  now rewrite IH.
Qed.

(** The name of a tag is the name of its first segment followed by the
    name of what comes after the dash. *)
Lemma dashToPascalCase_dash (w rest : string) :
  occurs "-" w = false ->
  React.dashToPascalCase (w +:+ String "-" rest)
  = React.capitalize w +:+ React.dashToPascalCase rest.
Proof.
  intros H. unfold React.dashToPascalCase.
  rewrite (split_prefix _ _ _ H), fmap_cons.
  pose proof (split_nonempty "-" rest) as Hne.
  destruct (split "-" rest) as [|w' ws]; [congruence|]. reflexivity.
Qed.

End Segments.

(** ** The generator *)

Section GeneratorFacts.

Import React.

Lemma startsWith_append (a p s : string) :
  startsWith (a +:+ p) (a +:+ s) = startsWith p s.
Proof.
  induction a as [|c a IH]; simpl; [reflexivity|].
  now rewrite Ascii.eqb_refl, IH.
Qed.

Lemma getFilteredComponents_elem exclude cmps c :
  c ∈ getFilteredComponents exclude cmps <->
  c ∈ cmps /\ (tagName c ∉ default [] exclude) /\ internal c = false.
Proof.
  unfold getFilteredComponents. rewrite list_elem_of_filter.
  rewrite (sortBy_Permutation tagName cmps).
  rewrite andb_True, !negb_True, bool_decide_spec, Is_true_true.
  destruct (internal c); intuition congruence.
Qed.

(** The text [generateProxies] writes ends with the definitions block and
    a line break. *)
Lemma generateProxies_text
    (path_dirname : string -> string) (path_join : list string -> string)
    (readPackageJson : string -> result PackageJSON)
    (relativeImport : string -> string -> string -> string)
    (writeFile : string -> string -> result unit)
    components outputTarget rootDir pkgData :
  readPackageJson rootDir = Ok pkgData ->
  exists header,
    generateProxies path_dirname path_join readPackageJson relativeImport
      writeFile components outputTarget rootDir
    = ([WriteFile (proxiesFile outputTarget)
          (header +:+ nl +:+ componentDefinitions components +:+ nl)],
       writeFile (proxiesFile outputTarget)
         (header +:+ nl +:+ componentDefinitions components +:+ nl)).
Proof.
  intros Hread. unfold generateProxies. rewrite Hread. cbv zeta.
  match goal with
  | |- context [join nl [?i; ?t; ?s; _]] =>
      exists (i +:+ nl +:+ t +:+ nl +:+ s); generalize i t s
  end.
  intros i t s. cbn [join]. now rewrite !append_assoc.
Qed.

(** Each definition is an array of one line. *)
Lemma componentDefinitions_lines components :
  componentDefinitions components
  = join nl ((fun c => default "" (head (createComponentDefinition c)))
               <$> components).
Proof.
  unfold componentDefinitions. f_equal.
  induction components as [|c cs IH]; [reflexivity|].
  rewrite !fmap_cons, IH. reflexivity.
Qed.

End GeneratorFacts.

(** C7. The generator keeps exactly the descriptors that are neither
    internal nor in the exclusion list, each as often as it was given, and
    puts them in ascending order of tag name. The definitions block it
    emits is, line for line and in that order, one definition for each of
    them: the line that declares the name derived from the tag; and once
    the package description is read, the text written to the proxies file
    ends with that block. The derived name is the tag cut at its dashes,
    each segment with an upper-case first letter, so it holds no dash.
    For the tags [x-b], [x-a] the definitions are emitted for [x-a], then
    [x-b], under the names [XA], [XB]; [my-button] becomes [MyButton]. *)
Theorem definitions_emitted_sorted
    (path_dirname : string -> string) (path_join : list string -> string)
    (dirname : string) (readPackageJson : string -> result React.PackageJSON)
    (relativeImport : string -> string -> string -> string)
    (writeFile : string -> string -> result unit)
    (outputTarget : React.OutputTargetReact)
    (cmps : list React.ComponentCompilerMeta) (config : React.Config) :
  let exclude := React.excludeComponents outputTarget in
  let kept := React.getFilteredComponents exclude cmps in
  let name := fun c => React.dashToPascalCase (React.tagName c) in
  let definition := fun c =>
    "export const " +:+ name c
    +:+ " = /* #__PURE__ */createReactComponent<JSX." +:+ name c
    +:+ ", HTML" +:+ name c +:+ "Element>(window, '" +:+ React.tagName c
    +:+ "', Import" +:+ name c +:+ ");" in
  let run :=
    React.reactProxyOutput path_dirname path_join dirname readPackageJson
      relativeImport writeFile outputTarget cmps config in
  kept ≡ₚ filter (fun c => negb (bool_decide (React.tagName c ∈ default [] exclude))
                           && negb (React.internal c)) cmps
  /\ (forall c, c ∈ kept <->
                c ∈ cmps /\ (React.tagName c ∉ default [] exclude)
                /\ React.internal c = false)
  /\ StronglySorted (React.ascending React.tagName) kept
  /\ React.createComponentDefinition <$> kept = (fun c => [definition c]) <$> kept
  /\ React.componentDefinitions kept = join React.nl (definition <$> kept)
  /\ (kept <> [] ->
      (forall c, c ∈ kept -> occurs "010" (React.tagName c) = false) ->
      split "010" (React.componentDefinitions kept) = definition <$> kept)
  /\ (forall pkgData, readPackageJson (React.rootDir config) = Ok pkgData ->
      exists header rest,
        run.1 = React.WriteFile (React.proxiesFile outputTarget)
                  (header +:+ React.nl
                   +:+ join React.nl (definition <$> kept) +:+ React.nl)
                :: rest)
  /\ (forall str, occurs "-" (React.dashToPascalCase str) = false)
  /\ (forall w, occurs "-" w = false ->
                React.dashToPascalCase w = React.capitalize w)
  /\ (forall w rest, occurs "-" w = false ->
                     React.dashToPascalCase (w +:+ String "-" rest)
                     = React.capitalize w +:+ React.dashToPascalCase rest)
  /\ React.getFilteredComponents None
       [ {| React.tagName := "x-b"; React.internal := false |};
         {| React.tagName := "x-a"; React.internal := false |} ]
     = [ {| React.tagName := "x-a"; React.internal := false |};
         {| React.tagName := "x-b"; React.internal := false |} ]
  /\ React.componentDefinitions
       (React.getFilteredComponents None
          [ {| React.tagName := "x-b"; React.internal := false |};
            {| React.tagName := "x-a"; React.internal := false |} ])
     = "export const XA = /* #__PURE__ */createReactComponent<JSX.XA, HTMLXAElement>(window, 'x-a', ImportXA);"
       +:+ React.nl
       +:+ "export const XB = /* #__PURE__ */createReactComponent<JSX.XB, HTMLXBElement>(window, 'x-b', ImportXB);"
  /\ React.dashToPascalCase "x-a" = "XA"
  /\ React.dashToPascalCase "x-b" = "XB"
  /\ React.dashToPascalCase "my-button" = "MyButton".
Proof.
  intros exclude kept name definition run.
  assert (React.componentDefinitions kept
          = join React.nl (definition <$> kept)) as Htext.
  { rewrite componentDefinitions_lines. reflexivity. }
  split; [|split; [|split; [|split; [|split; [|split; [|split]]]]]].
  - subst kept. unfold React.getFilteredComponents.
    now rewrite (sortBy_Permutation React.tagName cmps).
  - intros c. apply getFilteredComponents_elem.
  - subst kept. unfold React.getFilteredComponents.
    apply filter_sorted, sortBy_sorted.
  - reflexivity.
  - exact Htext.
  - intros Hne Hclean. rewrite Htext. unfold React.nl. apply split_join.
    + destruct kept; [congruence | discriminate].
    + apply Forall_fmap, Forall_forall. intros c Hc.
      specialize (Hclean c Hc).
      assert (occurs "010" (name c) = false) as Hname.
      { apply dashToPascalCase_keeps_out; [left; vm_compute; lia | exact Hclean]. }
      unfold definition, compose.
      rewrite !occurs_append, Hclean, Hname. reflexivity.
  - intros pkgData Hread. subst run. unfold React.reactProxyOutput.
    destruct (generateProxies_text path_dirname path_join readPackageJson
                relativeImport writeFile kept outputTarget
                (React.rootDir config) pkgData Hread) as (header & Hgen).
    fold exclude. fold kept. rewrite Hgen, Htext. clear Hgen. exists header.
    destruct (writeFile _ _) as [[]|m]; [|eexists; reflexivity].
    destruct (React.copyResources _ _ _ _ _) as [copied r].
    eexists. reflexivity.
  - split; [apply dashToPascalCase_no_dash|].
    split; [apply dashToPascalCase_segment|].
    split; [apply dashToPascalCase_dash|].
    repeat split; reflexivity.
Qed.

(** The definitions generated from the sample descriptors, of which
    [x-hidden] is internal and [x-c] is excluded. *)
Lemma definitions_emitted_sorted_witness :
  split "010"
    (React.componentDefinitions
       (React.getFilteredComponents (Some ["x-c"]) Examples.descriptors))
  = [ "export const XA = /* #__PURE__ */createReactComponent<JSX.XA, HTMLXAElement>(window, 'x-a', ImportXA);";
      "export const XB = /* #__PURE__ */createReactComponent<JSX.XB, HTMLXBElement>(window, 'x-b', ImportXB);" ].
Proof.
  destruct (definitions_emitted_sorted Examples.sample_dirname
              Examples.sample_join "/lib" Examples.sample_package
              Examples.sample_import Examples.sample_write
              Examples.output_target Examples.descriptors Examples.full_config)
    as (_ & _ & _ & _ & _ & Hlines & _).
  change (React.excludeComponents Examples.output_target)
    with (Some ["x-c"]) in Hlines.
  rewrite Hlines.
  - reflexivity.
  - vm_compute. discriminate.
  - intros c Hc. apply getFilteredComponents_elem in Hc as (Hin & _ & _).
    unfold Examples.descriptors in Hin.
    rewrite !elem_of_cons, elem_of_nil in Hin.
    destruct Hin as [->|[->|[->|[->|[]]]]]; reflexivity.
Defined.

(** C8, as stated, fails: the configuration error is not surfaced at
    once and the run is not stopped before it generates. On a host
    without a system the proxies file is written first and the
    configuration error comes after; and when the package description
    cannot be read, the same host gets the reader's error and no
    configuration error at all. *)
Lemma configuration_error_after_write :
  React.sys Examples.bare_config = None
  /\ (React.reactProxyOutput Examples.sample_dirname Examples.sample_join
        "/lib" Examples.sample_package Examples.sample_import
        Examples.sample_write Examples.output_target Examples.descriptors
        Examples.bare_config).2
     = Throw React.NOT_INITIALIZED
  /\ (exists text,
        (React.reactProxyOutput Examples.sample_dirname Examples.sample_join
           "/lib" Examples.sample_package Examples.sample_import
           Examples.sample_write Examples.output_target Examples.descriptors
           Examples.bare_config).1
        = [React.WriteFile "src/proxies.ts" text])
  /\ React.reactProxyOutput Examples.sample_dirname Examples.sample_join
       "/lib" (fun _ => Throw "ENOENT") Examples.sample_import
       Examples.sample_write Examples.output_target Examples.descriptors
       Examples.bare_config
     = ([], Throw "ENOENT")
  /\ ~ (forall readPackageJson config,
          React.sys config = None ->
          React.reactProxyOutput Examples.sample_dirname Examples.sample_join
            "/lib" readPackageJson Examples.sample_import
            Examples.sample_write Examples.output_target Examples.descriptors
            config
          = ([], Throw React.NOT_INITIALIZED)).
Proof.
  split; [reflexivity|]. split; [reflexivity|].
  split; [eexists; vm_compute; reflexivity|]. split; [reflexivity|].
  intros Hall.
  specialize (Hall (fun _ => Throw "ENOENT") Examples.bare_config eq_refl).
  vm_compute in Hall. discriminate.
Qed.

(** C8, amended. Without a file-copy capability ([config.sys] or
    [config.sys.copy] missing) the run never succeeds and never copies,
    and [copyResources] throws the configuration error without copying
    anything; but the capability is only looked at in the last step.
    When the proxies are generated, their file is written and the run
    then ends with the configuration error; when generating them fails,
    the run ends with that failure and reports no configuration error.
    With the capability present, [copyResources] raises nothing of its
    own: it hands the two resource files to the host's copy, whose
    outcome is the outcome of the run. *)
Theorem copy_capability
    (path_dirname : string -> string) (path_join : list string -> string)
    (dirname : string) (readPackageJson : string -> result React.PackageJSON)
    (relativeImport : string -> string -> string -> string)
    (writeFile : string -> string -> result unit)
    (outputTarget : React.OutputTargetReact)
    (components : list React.ComponentCompilerMeta) (config : React.Config) :
  let copied :=
    React.copyResources path_dirname path_join dirname config outputTarget in
  let generated :=
    React.generateProxies path_dirname path_join readPackageJson relativeImport
      writeFile
      (React.getFilteredComponents (React.excludeComponents outputTarget)
         components)
      outputTarget (React.rootDir config) in
  let run :=
    React.reactProxyOutput path_dirname path_join dirname readPackageJson
      relativeImport writeFile outputTarget components config in
  (React.sys config = None
   \/ (exists s, React.sys config = Some s /\ React.copy s = None) ->
   copied = ([], Throw React.NOT_INITIALIZED)
   /\ (exists m, run.2 = Throw m)
   /\ Forall (fun eff => forall tasks, eff <> React.Copy tasks) run.1
   /\ (generated.2 = Ok () ->
       run = (generated.1, Throw React.NOT_INITIALIZED)
       /\ exists text,
            generated.1 = [React.WriteFile (React.proxiesFile outputTarget) text])
   /\ (forall m, generated.2 = Throw m -> run = (generated.1, Throw m))
   /\ (forall m, readPackageJson (React.rootDir config) = Throw m ->
                 run = ([], Throw m)))
  /\ (forall s copy, React.sys config = Some s -> React.copy s = Some copy ->
      exists tasks,
        React.src <$> tasks
          = [path_join [dirname; "../src/resources/"; "utils.ts"];
             path_join [dirname; "../src/resources/"; "createComponent.tsx"]]
        /\ copied = ([React.Copy tasks], copy tasks)
        /\ (generated.2 = Ok () ->
            run = (generated.1 ++ [React.Copy tasks], copy tasks))).
Proof.
  cbv zeta.
  set (generated := React.generateProxies _ _ _ _ _ _ _ _).
  assert (Forall (fun eff => forall tasks, eff <> React.Copy tasks) generated.1
          /\ (generated.2 = Ok () ->
              exists text,
                generated.1
                = [React.WriteFile (React.proxiesFile outputTarget) text])
          /\ (forall m, readPackageJson (React.rootDir config) = Throw m ->
                        generated = ([], Throw m)))
    as (Hgen & Hwritten & Hread).
  { subst generated. unfold React.generateProxies.
    destruct (readPackageJson (React.rootDir config)); cbn [fst snd].
    - split; [repeat constructor; discriminate|].
      split; [eauto | discriminate].
    - split; [constructor|]. split; [discriminate|]. now intros m [= ->]. }
  unfold React.reactProxyOutput. fold generated.
  destruct generated as [done r]. cbn [fst snd] in *.
  unfold React.copyResources. split.
  - intros Hmissing.
    assert (match React.sys config with
            | Some s => React.copy s = None
            | None => True
            end) as Hcase.
    { destruct Hmissing as [->|(s & -> & ->)]; [exact I | reflexivity]. }
    clear Hmissing.
    destruct (React.sys config) as [s|]; [rewrite Hcase|];
      (split; [reflexivity|]);
      (split; [destruct r as [[]|m]; eexists; reflexivity|]);
      (split; [destruct r as [[]|m]; cbn [fst]; rewrite ?app_nil_r; exact Hgen|]);
      (split; [intros ->; rewrite app_nil_r; split; [reflexivity | auto]|]);
      (split; [now intros m ->|]);
      intros m Hm; specialize (Hread m Hm); injection Hread as -> ->;
      reflexivity.
  - intros s copy -> ->.
    exists ((fun rf =>
               {| React.src := path_join [dirname; "../src/resources/"; rf];
                  React.dest :=
                    path_join [path_dirname (React.proxiesFile outputTarget); rf];
                  React.warn := false |})
              <$> ["utils.ts"; "createComponent.tsx"]).
    split; [reflexivity|]. split; [reflexivity|].
    intros ->. reflexivity.
Qed.

(** A host without a system stops the run with the configuration error
    once the proxies are written; a host with a working copy finishes. *)
Lemma copy_capability_witness :
  (React.reactProxyOutput Examples.sample_dirname Examples.sample_join "/lib"
     Examples.sample_package Examples.sample_import Examples.sample_write
     Examples.output_target Examples.descriptors Examples.bare_config).2
  = Throw React.NOT_INITIALIZED
  /\ (React.reactProxyOutput Examples.sample_dirname Examples.sample_join "/lib"
        Examples.sample_package Examples.sample_import Examples.sample_write
        Examples.output_target Examples.descriptors Examples.full_config).2
     = Ok ().
Proof.
  split.
  - destruct (copy_capability Examples.sample_dirname Examples.sample_join "/lib"
                Examples.sample_package Examples.sample_import
                Examples.sample_write Examples.output_target
                Examples.descriptors Examples.bare_config) as [H _].
    destruct H as (_ & _ & _ & H & _); [left; reflexivity|].
    destruct (H eq_refl) as [Hrun _]. rewrite Hrun. reflexivity.
  - destruct (copy_capability Examples.sample_dirname Examples.sample_join "/lib"
                Examples.sample_package Examples.sample_import
                Examples.sample_write Examples.output_target
                Examples.descriptors Examples.full_config) as [_ H].
    destruct (H _ _ eq_refl eq_refl) as (tasks & _ & Hc & Hr).
    rewrite Hr by reflexivity. vm_compute in Hc. injection Hc as <-. reflexivity.
Defined.

(** * Further properties of the wrapper *)

(** ** What a render hands to the element *)

Section Node.

Implicit Types (o : Options) (props : gmap string propval) (st : Instance).

Lemma initialProps_lookup oldClick st key :
  initialProps oldClick st !! key =
    if decide (key = "onVnodeBeforeMount") then Some AVnodeHook
    else if decide (key = "onClick") then Some (AHandleClick oldClick)
    else if decide (key = "class") then Some (AClass (mergedClasses st))
    else if decide (key = "ref") then Some ARef
    else None.
Proof.
  unfold initialProps.
  repeat (destruct (decide _) as [->|?]; [reflexivity|]).
  rewrite !lookup_insert_ne by congruence. apply lookup_empty.
Qed.

Lemma initialProps_reserved oldClick st key :
  is_Some (initialProps oldClick st !! key) <-> key ∈ RESERVED.
Proof.
  rewrite initialProps_lookup. unfold RESERVED.
  rewrite !elem_of_cons, elem_of_nil.
  repeat (destruct (decide _) as [->|?]); split; intros H;
    eauto 6; try (destruct H as [? H]; discriminate); intuition congruence.
Qed.

Lemma modelAssigned_not_EMPTY o props m :
  modelAssigned o props = Some m -> is_EMPTY_PROP m = false.
Proof.
  unfold modelAssigned. destruct (truthy (modelProp o)); [|discriminate].
  destruct (is_EMPTY_PROP (prop_get props MODEL_VALUE)) eqn:Hb; cbn [negb].
  - destruct (is_EMPTY_PROP (prop_get props (propKey (modelProp o)))) eqn:Hs;
      cbn [negb]; [discriminate|]. now intros [= <-].
  - now intros [= <-].
Qed.

(** What stands under a key of the node, read off the props alone. *)
Lemma render_lookup o props attrs_class st st1 v key :
  render o props attrs_class st = (st1, Ok v) ->
  vprops v !! key =
    match (if String.eqb key (propKey (modelProp o))
           then modelAssigned o props else None) with
    | Some m => Some (AProp m)
    | None =>
        match props !! key with
        | Some value =>
            if forwarded key value then Some (AProp value)
            else initialProps (prop_get props "onClick") st1 !! key
        | None => initialProps (prop_get props "onClick") st1 !! key
        end
    end.
Proof.
  intros Hr. pose proof (render_modelPropValue _ _ _ _ _ _ Hr) as Hm.
  destruct (render_inv _ _ _ _ _ _ Hr) as [_ ->]. cbn [vprops].
  assert (forwardProps props (initialProps (prop_get props "onClick") st1) !! key
          = match props !! key with
            | Some value =>
                if forwarded key value then Some (AProp value)
                else initialProps (prop_get props "onClick") st1 !! key
            | None => initialProps (prop_get props "onClick") st1 !! key
            end) as Hloop.
  { destruct (props !! key) as [value|] eqn:Hk.
    - apply forwardProps_Some, Hk.
    - apply forwardProps_None, Hk. }
  unfold modelPrecedence, modelAssigned. rewrite Hm.
  destruct (String.eqb key (propKey (modelProp o))) eqn:Hkey.
  - apply String.eqb_eq in Hkey. subst key.
    destruct (truthy (modelProp o)); [|exact Hloop].
    destruct (negb (is_EMPTY_PROP (prop_get props MODEL_VALUE)));
      [apply lookup_insert_eq|].
    destruct (negb (is_EMPTY_PROP (prop_get props (propKey (modelProp o)))));
      [apply lookup_insert_eq | exact Hloop].
  - apply String.eqb_neq in Hkey. rewrite <- Hloop.
    destruct (truthy (modelProp o)); [|reflexivity].
    destruct (negb (is_EMPTY_PROP (prop_get props MODEL_VALUE)));
      [now rewrite lookup_insert_ne|].
    destruct (negb (is_EMPTY_PROP (prop_get props (propKey (modelProp o)))));
      [now rewrite lookup_insert_ne | reflexivity].
Qed.

End Node.

(** X1. The unset sentinel reaches the element only under a name that
    starts with [aria], and only as the value of the input of that name;
    the model-value block never assigns it. An [aria] input left unset
    does reach the element as the sentinel, unless the model-value block
    assigns a value under the same name. *)
Theorem sentinel_only_under_aria
    (o : Options) (props : gmap string propval) (attrs_class : jsval)
    (st st1 : Instance) (v : VNode) (key : string) :
  render o props attrs_class st = (st1, Ok v) ->
  (vprops v !! key = Some (AProp (Data VEmptyProp)) ->
   startsWith ARIA_PROP_PREFIX key = true
   /\ props !! key = Some (Data VEmptyProp))
  /\ (props !! key = Some (Data VEmptyProp) ->
      startsWith ARIA_PROP_PREFIX key = true ->
      key <> propKey (modelProp o) \/ modelAssigned o props = None ->
      vprops v !! key = Some (AProp (Data VEmptyProp))).
Proof.
  intros Hr. rewrite (render_lookup _ _ _ _ _ _ key Hr). split.
  - destruct (if String.eqb key (propKey (modelProp o))
              then modelAssigned o props else None) as [m|] eqn:Hm.
    + intros [= ->].
      destruct (String.eqb key (propKey (modelProp o))); [|discriminate].
      apply modelAssigned_not_EMPTY in Hm. discriminate.
    + destruct (props !! key) as [value|];
        [|intros H; now apply initialProps_no_value in H].
      unfold forwarded. destruct (is_EMPTY_PROP value) eqn:Hv; cbn [negb orb].
      * destruct (startsWith ARIA_PROP_PREFIX key);
          [|intros H; now apply initialProps_no_value in H].
        intros [= ->]. split; reflexivity.
      * intros [= ->]. discriminate.
  - intros Hk Ha Hmodel.
    assert ((if String.eqb key (propKey (modelProp o))
             then modelAssigned o props else None) = None) as ->.
    { destruct Hmodel as [Hne| ->]; [|now destruct (String.eqb _ _)].
      apply String.eqb_neq in Hne. now rewrite Hne. }
    rewrite Hk. unfold forwarded. now rewrite Ha, orb_true_r.
Qed.

(** On the sample control with every input unset, the sentinel stands
    under [ariaLabel], an [aria] name. *)
Lemma sentinel_only_under_aria_witness :
  vprops Examples.unset_render.2 !! "ariaLabel" = Some (AProp (Data VEmptyProp))
  /\ startsWith ARIA_PROP_PREFIX "ariaLabel" = true.
Proof.
  assert (render Examples.input_options Examples.unset_props VUndefined
            Examples.cached_instance
          = (Examples.unset_render.1, Ok Examples.unset_render.2)) as Hr
    by (vm_compute; reflexivity).
  destruct (sentinel_only_under_aria _ _ _ _ _ _ "ariaLabel" Hr) as [Hin Hout].
  assert (vprops Examples.unset_render.2 !! "ariaLabel"
          = Some (AProp (Data VEmptyProp))) as Hleak.
  { apply Hout; [reflexivity | reflexivity | left; discriminate]. }
  split; [exact Hleak | exact (proj1 (Hin Hleak))].
Defined.

(** X2. The keys of the node: the four keys [propsToAdd] is built with,
    the inputs the forwarding loop lets through, and the model property
    when the model-value block assigns it; no other key reaches the
    element. *)
Theorem node_keys
    (o : Options) (props : gmap string propval) (attrs_class : jsval)
    (st st1 : Instance) (v : VNode) (key : string) :
  render o props attrs_class st = (st1, Ok v) ->
  is_Some (vprops v !! key) <->
  key ∈ RESERVED
  \/ (exists value, props !! key = Some value /\ forwarded key value = true)
  \/ (key = propKey (modelProp o) /\ is_Some (modelAssigned o props)).
Proof.
  intros Hr. rewrite (render_lookup _ _ _ _ _ _ key Hr).
  rewrite <- (initialProps_reserved (prop_get props "onClick") st1 key).
  destruct (String.eqb key (propKey (modelProp o))) eqn:Hkey.
  - apply String.eqb_eq in Hkey.
    destruct (modelAssigned o props) as [m|].
    + split; [intros _; right; right; eauto | eauto].
    + destruct (props !! key) as [value|];
        [destruct (forwarded key value) eqn:Hf|].
      * split; [intros _; right; left; eauto | eauto].
      * split; [auto|]. intros [H|[(x & [= <-] & Hx)|[_ [? H]]]];
          [exact H | congruence | discriminate].
      * split; [auto|]. intros [H|[(x & Hx & _)|[_ [? H]]]];
          [exact H | discriminate | discriminate].
  - apply String.eqb_neq in Hkey.
    destruct (props !! key) as [value|];
      [destruct (forwarded key value) eqn:Hf|].
    + split; [intros _; right; left; eauto | eauto].
    + split; [auto|]. intros [H|[(x & [= <-] & Hx)|[? _]]];
        [exact H | congruence | contradiction].
    + split; [auto|]. intros [H|[(x & Hx & _)|[? _]]];
        [exact H | discriminate | contradiction].
Qed.

(** On the sample control with every input unset, [value] is no key of
    the node. *)
Lemma node_keys_witness :
  vprops Examples.unset_render.2 !! "value" = None.
Proof.
  assert (render Examples.input_options Examples.unset_props VUndefined
            Examples.cached_instance
          = (Examples.unset_render.1, Ok Examples.unset_render.2)) as Hr
    by (vm_compute; reflexivity).
  apply eq_None_not_Some. intros Hsome.
  apply (node_keys _ _ _ _ _ _ "value" Hr) in Hsome
    as [Hres|[(value & Hk & Hf)|[_ Hm]]].
  - vm_compute in Hres. repeat (inversion Hres as [|? ? ? Hres']; clear Hres;
                                rename Hres' into Hres).
  - vm_compute in Hk. injection Hk as <-. discriminate.
  - vm_compute in Hm. destruct Hm as [? Hm]. discriminate.
Defined.

Section NodeEntries.

Implicit Types (o : Options) (props : gmap string propval) (st : Instance).

Lemma reserved_kept o props attrs_class st st1 v key :
  render o props attrs_class st = (st1, Ok v) ->
  (forall value, props !! key = Some value -> forwarded key value = false) ->
  key <> propKey (modelProp o) \/ modelAssigned o props = None ->
  vprops v !! key = initialProps (prop_get props "onClick") st1 !! key.
Proof.
  intros Hr Hnone Hmodel. rewrite (render_lookup _ _ _ _ _ _ key Hr).
  assert ((if String.eqb key (propKey (modelProp o))
           then modelAssigned o props else None) = None) as ->.
  { destruct Hmodel as [Hne| ->]; [|now destruct (String.eqb _ _)].
    apply String.eqb_neq in Hne. now rewrite Hne. }
  destruct (props !! key) as [value|]; [|reflexivity].
  now rewrite (Hnone value eq_refl).
Qed.

End NodeEntries.

(** X3. The wrapper's own entries reach the element untouched, that is
    the ref, the merged class list, [handleClick] closed over
    [props.onClick] and the mount hook, whenever no input named like one
    of them passes the forwarding loop and the model-value block does not
    assign under one of these names. *)
Theorem wrapper_entries_intact
    (o : Options) (props : gmap string propval) (attrs_class : jsval)
    (st st1 : Instance) (v : VNode) :
  render o props attrs_class st = (st1, Ok v) ->
  (forall key value, key ∈ RESERVED -> props !! key = Some value ->
                     forwarded key value = false) ->
  propKey (modelProp o) ∉ RESERVED \/ modelAssigned o props = None ->
  vprops v !! "ref" = Some ARef
  /\ vprops v !! "class" = Some (AClass (mergedClasses st1))
  /\ vprops v !! "onClick" = Some (AHandleClick (prop_get props "onClick"))
  /\ vprops v !! "onVnodeBeforeMount" = Some AVnodeHook.
Proof.
  intros Hr Hnone Hmodel.
  assert (forall key, key ∈ RESERVED ->
            vprops v !! key
            = initialProps (prop_get props "onClick") st1 !! key) as Hkept.
  { intros key Hkey. apply (reserved_kept _ _ _ _ _ _ _ Hr).
    - intros value. now apply Hnone.
    - destruct Hmodel as [Hout|Hm]; [left; congruence | now right]. }
  repeat split; rewrite Hkept; try reflexivity; unfold RESERVED;
    rewrite !elem_of_cons; auto.
Qed.

(** The sample control with every input unset keeps the four entries. *)
Lemma wrapper_entries_intact_witness :
  vprops Examples.unset_render.2 !! "class" = Some (AClass ["hydrated"; "dark"])
  /\ vprops Examples.unset_render.2 !! "onClick"
     = Some (AHandleClick (Data VUndefined)).
Proof.
  destruct (wrapper_entries_intact Examples.input_options Examples.unset_props
              VUndefined Examples.cached_instance Examples.unset_render.1
              Examples.unset_render.2) as (_ & Hclass & Hclick & _).
  - vm_compute. reflexivity.
  - intros key value Hkey Hk. unfold RESERVED in Hkey.
    rewrite !elem_of_cons, elem_of_nil in Hkey.
    destruct Hkey as [->|[->|[->|[->|[]]]]]; vm_compute in Hk; discriminate.
  - left. unfold RESERVED. rewrite !elem_of_cons, elem_of_nil.
    intros [H|[H|[H|[H|[]]]]]; discriminate.
  - split; [rewrite Hclass; vm_compute; reflexivity | exact Hclick].
Defined.

(** X4. An input named [onClick]. Set to a value, it passes the
    forwarding loop and takes the place of [handleClick] in the node, so
    the element gets the caller's value and none of the wrapper's click
    handling. Declared and left at the sentinel, it is not forwarded,
    [handleClick] stays, and since the sentinel is not [undefined] every
    click calls it and throws a [TypeError]. With no such input,
    [handleClick] is attached with nothing to call first. *)
Theorem onClick_input
    (o : Options) (props : gmap string propval) (attrs_class : jsval)
    (st st1 : Instance) (v : VNode) :
  render o props attrs_class st = (st1, Ok v) ->
  "onClick" <> propKey (modelProp o) \/ modelAssigned o props = None ->
  (forall value, props !! "onClick" = Some value ->
                 is_EMPTY_PROP value = false ->
                 vprops v !! "onClick" = Some (AProp value))
  /\ (props !! "onClick" = Some (Data VEmptyProp) ->
      vprops v !! "onClick" = Some (AHandleClick (Data VEmptyProp))
      /\ forall ev,
           handleClick (Data VEmptyProp) props st1 ev
           = Throw "TypeError: oldClick is not a function")
  /\ (props !! "onClick" = None ->
      vprops v !! "onClick" = Some (AHandleClick (Data VUndefined))
      /\ forall ev,
           handleClick (Data VUndefined) props st1 ev
           = Ok (ev, if defaultPrevented ev then []
                     else handleRouterLink props st1 ev)).
Proof.
  intros Hr Hmodel. split; [|split].
  - intros value Hk Hv. rewrite (render_lookup _ _ _ _ _ _ "onClick" Hr).
    assert ((if String.eqb "onClick" (propKey (modelProp o))
             then modelAssigned o props else None) = None) as ->.
    { destruct Hmodel as [Hne| ->]; [|now destruct (String.eqb _ _)].
      apply String.eqb_neq in Hne. now rewrite Hne. }
    rewrite Hk. unfold forwarded. now rewrite Hv.
  - intros Hk. split; [|reflexivity].
    rewrite (reserved_kept _ _ _ _ _ _ "onClick" Hr); [| |exact Hmodel].
    + unfold prop_get. rewrite Hk. reflexivity.
    + intros value. rewrite Hk. now intros [= <-].
  - intros Hk. split.
    + rewrite (reserved_kept _ _ _ _ _ _ "onClick" Hr); [| |exact Hmodel].
      * unfold prop_get. rewrite Hk. reflexivity.
      * intros value. rewrite Hk. discriminate.
    + intros ev. unfold handleClick. cbn.
      now destruct (defaultPrevented ev).
Qed.

(** With [onClick] among the component properties and unset, the node
    keeps [handleClick] and a click throws. *)
Lemma onClick_input_witness :
  vprops Examples.declared_click_render.2 !! "onClick"
  = Some (AHandleClick (Data VEmptyProp))
  /\ handleClick (Data VEmptyProp) Examples.declared_click_props
       Examples.declared_click_render.1 Examples.click
     = Throw "TypeError: oldClick is not a function".
Proof.
  destruct (onClick_input Examples.input_options Examples.declared_click_props
              VUndefined Examples.fresh_instance
              Examples.declared_click_render.1
              Examples.declared_click_render.2) as (_ & H & _).
  - vm_compute. reflexivity.
  - left. discriminate.
  - destruct (H eq_refl) as [Hnode Hthrow].
    split; [exact Hnode | apply Hthrow].
Defined.



(** ** Renders, native updates and the class set *)

Section Frame.

Implicit Types (o : Options) (props : gmap string propval) (st : Instance).

(** A firing changes the cache and nothing else of the instance. *)
Lemma dispatch_frame o listeners e st :
  containerRef (dispatch o listeners e st).1 = containerRef st
  /\ classes (dispatch o listeners e st).1 = classes st
  /\ navManager (dispatch o listeners e st).1 = navManager st.
Proof.
  revert st. induction listeners as [|[eventName l] rest IH]; intros st;
    cbn [dispatch]; [auto|].
  destruct (String.eqb eventName (ev_type e)); [|apply IH].
  destruct (runListener o l e st) as [st1 out1] eqn:E1.
  assert (containerRef st1 = containerRef st /\ classes st1 = classes st
          /\ navManager st1 = navManager st) as (H1 & H2 & H3).
  { destruct l; cbn [runListener] in E1.
    - rewrite modelListener_run in E1. injection E1 as <- _. auto.
    - injection E1 as <- _. auto. }
  specialize (IH st1). destruct (dispatch o rest e st1) as [st2 out2].
  cbn [fst] in *. destruct IH as (I1 & I2 & I3).
  rewrite I1, I2, I3. auto.
Qed.

(** A render reads nothing of the cache it finds. *)
Lemma render_ignores_cache o props attrs_class st st' :
  containerRef st = containerRef st' -> classes st = classes st' ->
  navManager st = navManager st' ->
  render o props attrs_class st = render o props attrs_class st'.
Proof.
  intros H1 H2 H3. unfold render.
  replace (set_modelPropValue (prop_get props (propKey (modelProp o))) st')
    with (set_modelPropValue (prop_get props (propKey (modelProp o))) st);
    [reflexivity|].
  unfold set_modelPropValue. now rewrite H1, H2, H3.
Qed.

Lemma render_classes o props attrs_class st st1 v :
  render o props attrs_class st = (st1, Ok v) ->
  exists cls, getComponentClasses attrs_class = Ok cls
              /\ classes st1 = classes st ∪ list_to_set cls
              /\ containerRef st1 = containerRef st.
Proof.
  intros Hr. destruct (render_inv _ _ _ _ _ _ Hr) as [Hadd _].
  apply addClasses_classes in Hadd as (cls & Hcls & ->).
  exists cls. repeat split; assumption.
Qed.

End Frame.

(** X5. A native update never reaches a render: whatever event has fired
    on the element, under whatever listeners, the next render returns the
    instance and the node it would have returned without the firing. The
    value the listener cached is overwritten before it is read. *)
Theorem render_after_update
    (o o' : Options) (listeners : list (string * Listener)) (e : Event)
    (props : gmap string propval) (attrs_class : jsval) (st : Instance) :
  render o props attrs_class (dispatch o' listeners e st).1
  = render o props attrs_class st.
Proof.
  destruct (dispatch_frame o' listeners e st) as (H1 & H2 & H3).
  now apply render_ignores_cache.
Qed.

(** X6. The wrapper's own class set only grows. Each render adds the
    classes of the class attribute it sees to what the set held; nothing
    is ever taken out. A class the attribute held at an earlier render
    and no longer holds is still owned, and so is still kept out of the
    class list computed for the element. *)
Theorem owned_classes_accumulate
    (o1 o2 : Options) (props1 props2 : gmap string propval)
    (class1 class2 : jsval) (st st1 st2 : Instance) (v1 v2 : VNode) :
  render o1 props1 class1 st = (st1, Ok v1) ->
  render o2 props2 class2 st1 = (st2, Ok v2) ->
  exists cls1 cls2,
    getComponentClasses class1 = Ok cls1
    /\ getComponentClasses class2 = Ok cls2
    /\ classes st2 = classes st ∪ list_to_set cls1 ∪ list_to_set cls2
    /\ classes st ⊆ classes st1 /\ classes st1 ⊆ classes st2
    /\ (forall c, c ∈ cls1 -> c ∈ classes st2 /\ c ∉ mergedClasses st2).
Proof.
  intros Hr1 Hr2.
  destruct (render_classes _ _ _ _ _ _ Hr1) as (cls1 & Hc1 & Hs1 & _).
  destruct (render_classes _ _ _ _ _ _ Hr2) as (cls2 & Hc2 & Hs2 & _).
  exists cls1, cls2. split; [exact Hc1|]. split; [exact Hc2|].
  split; [now rewrite Hs2, Hs1|].
  split; [rewrite Hs1; apply union_subseteq_l|].
  split; [rewrite Hs2; apply union_subseteq_l|].
  intros c Hc.
  assert (c ∈ classes st2) as Hin.
  { rewrite Hs2, Hs1. apply elem_of_union_l, elem_of_union_r.
    now apply elem_of_list_to_set. }
  split; [exact Hin|]. intros Hm.
  apply getElementClasses_elem in Hm as [_ Hout]. contradiction.
Qed.

(** The wrapper's class goes from [wide] to [md]: [wide] is still owned
    and still kept off the element's list. *)
Lemma owned_classes_accumulate_witness :
  ("wide" ∈ classes Examples.narrow_render.1
   /\ "wide" ∉ mergedClasses Examples.narrow_render.1)
  /\ mergedClasses Examples.narrow_render.1 = ["hydrated"].
Proof.
  destruct (owned_classes_accumulate Examples.input_options
              Examples.input_options Examples.unset_props Examples.unset_props
              (VStr "wide") (VStr "md") Examples.fresh_instance
              Examples.wide_render.1 Examples.narrow_render.1
              Examples.wide_render.2 Examples.narrow_render.2)
    as (cls1 & cls2 & Hc1 & _ & _ & _ & _ & Hkept).
  - vm_compute. reflexivity.
  - vm_compute. reflexivity.
  - injection Hc1 as <-. split; [|vm_compute; reflexivity].
    apply Hkept. vm_compute. left.
Defined.

(** ** The element's class list *)

Section MergedClasses.

Lemma filter_from_sublist {A} (p : A -> nat -> bool) i (l : list A) :
  filter_from p i l `sublist_of` l.
Proof.
  revert i. induction l as [|x l IH]; intros i; simpl; [constructor|].
  destruct (p x i); [apply sublist_skip | apply sublist_cons]; apply IH.
Qed.

Lemma getElementClasses_all (ref : option Element) (cs : gset string)
    (defaultClasses : list string) :
  let self := match ref with Some el => classList el | None => [] end
              ++ defaultClasses in
  NoDup self -> (forall c, c ∈ self -> c ∉ cs) ->
  getElementClasses ref cs defaultClasses = self.
Proof.
  intros self Hnd Hcs. unfold getElementClasses, filteri. fold self.
  apply filter_from_all. intros k x Hk. cbn beta.
  rewrite (indexOf_NoDup _ _ _ Hnd Hk), Z.eqb_refl, andb_true_r.
  apply negb_true_iff, bool_decide_eq_false, Hcs.
  eapply list_elem_of_lookup_2; eassumption.
Qed.

End MergedClasses.

(** X7. [getElementClasses] drops nothing but what it has to: its result
    holds exactly the element's classes and default classes that the
    component does not own, in the order they stand in, and is the list
    itself when that has no repetition and nothing of it is owned. *)
Theorem merged_classes_exact
    (ref : option Element) (componentClasses : gset string)
    (defaultClasses : list string) :
  (forall c,
      c ∈ getElementClasses ref componentClasses defaultClasses <->
      c ∈ match ref with Some el => classList el | None => [] end
          ++ defaultClasses
      /\ c ∉ componentClasses)
  /\ getElementClasses ref componentClasses defaultClasses
     `sublist_of` (match ref with Some el => classList el | None => [] end
                   ++ defaultClasses)
  /\ (NoDup (match ref with Some el => classList el | None => [] end
             ++ defaultClasses) ->
      (forall c,
          c ∈ match ref with Some el => classList el | None => [] end
              ++ defaultClasses ->
          c ∉ componentClasses) ->
      getElementClasses ref componentClasses defaultClasses
      = match ref with Some el => classList el | None => [] end
        ++ defaultClasses).
Proof.
  split; [intros c; apply getElementClasses_elem|].
  split; [apply filter_from_sublist | apply getElementClasses_all].
Qed.

(** ** Custom events and declared emits *)

Section CustomEvents.

Implicit Types (o : Options) (e : Event) (st : Instance).

Lemma dispatch_app o l1 l2 e st :
  dispatch o (l1 ++ l2) e st =
    ((dispatch o l2 e (dispatch o l1 e st).1).1,
     (dispatch o l1 e st).2 ++ (dispatch o l2 e (dispatch o l1 e st).1).2).
Proof.
  revert st. induction l1 as [|[eventName l] l1 IH]; intros st;
    cbn [app dispatch].
  - cbn [fst snd app]. now destruct (dispatch o l2 e st).
  - destruct (String.eqb eventName (ev_type e)); [|apply IH].
    destruct (runListener o l e st) as [st1 out1]. rewrite IH.
    destruct (dispatch o l1 e st1) as [st2 out2]. cbn [fst snd].
    destruct (dispatch o l2 e st2) as [st3 out3]. cbn [fst snd].
    now rewrite app_assoc.
Qed.

(** Model listeners under other names stay silent. *)
Lemma dispatch_model_silent o (names : list string) e st :
  ev_type e ∉ names ->
  dispatch o ((fun n => (n, ModelUpdate)) <$> names) e st = (st, []).
Proof.
  induction names as [|n names IH]; intros Hnot; [reflexivity|].
  apply not_elem_of_cons in Hnot as [Hne Hnot].
  cbn [fmap list_fmap dispatch].
  replace (String.eqb n (ev_type e)) with false; [now apply IH|].
  symmetry. apply String.eqb_neq. congruence.
Qed.

(** Custom listeners forward the event once for each time its name is
    listed. *)
Lemma dispatch_custom o (customs : list string) e st :
  dispatch o ((fun n => (n, Custom n)) <$> customs) e st =
    (st, (fun n => Emit n (OfEvent e) (modelPropValue st))
           <$> filter (fun n => n = ev_type e) customs).
Proof.
  induction customs as [|n customs IH]; [reflexivity|].
  rewrite fmap_cons, filter_cons. cbn [dispatch].
  destruct (String.eqb n (ev_type e)) eqn:E.
  - apply String.eqb_eq in E. rewrite decide_True by exact E.
    cbn [runListener customListener emit]. rewrite IH. reflexivity.
  - apply String.eqb_neq in E. rewrite decide_False by exact E. exact IH.
Qed.

End CustomEvents.

(** X8. Forwarding of custom events. An event that is not a model-update
    event of the wrapper is forwarded verbatim and nothing more: once the
    element is there, a firing emits the native event under its own name
    once for each time the name is listed among the custom events, none
    at all for an event that is not listed, and leaves the instance as it
    was. *)
Theorem custom_event_forwarded
    (o : Options) (el : Element) (e : Event) (st : Instance) :
  truthy_events (modelUpdateEvent o) = false
  \/ ev_type e ∉ eventsNames (modelUpdateEvent o) ->
  dispatch o (onVnodeBeforeMount o (Some el)) e st =
    (st, (fun n => Emit n (OfEvent e) (modelPropValue st))
           <$> filter (fun n => n = ev_type e)
                 (default [] (componentCustomEvents o))).
Proof.
  intros Hmodel. unfold onVnodeBeforeMount. rewrite dispatch_app.
  assert (dispatch o
            (if truthy_events (modelUpdateEvent o)
             then (fun eventName => (eventName, ModelUpdate))
                    <$> eventsNames (modelUpdateEvent o)
             else []) e st = (st, [])) as ->.
  { destruct (truthy_events (modelUpdateEvent o)); [|reflexivity].
    destruct Hmodel as [?|Hnot]; [discriminate|].
    now apply dispatch_model_silent. }
  cbn [fst snd app].
  replace (if has_length (componentCustomEvents o)
           then (fun eventName => (eventName, Custom eventName))
                  <$> default [] (componentCustomEvents o)
           else [])
    with ((fun eventName => (eventName, Custom eventName))
            <$> default [] (componentCustomEvents o))
    by (now destruct (componentCustomEvents o) as [[|]|]).
  rewrite dispatch_custom. reflexivity.
Qed.

(** On the sample control [ionInput] is forwarded once and the cache
    stays as it was. *)
Lemma custom_event_forwarded_witness :
  dispatch Examples.input_options
    (onVnodeBeforeMount Examples.input_options (Some Examples.input_element))
    Examples.ionInput Examples.cached_instance
  = (Examples.cached_instance,
     [Emit "ionInput" (OfEvent Examples.ionInput) (Data (VStr "abc"))]).
Proof.
  rewrite (custom_event_forwarded Examples.input_options Examples.input_element
             Examples.ionInput Examples.cached_instance).
  - reflexivity.
  - right. vm_compute. intros H.
    inversion H as [|? ? ? H']. inversion H'.
Defined.

Section Emits.

Implicit Types (o : Options) (e : Event) (st : Instance).

Lemma custom_declared o eventName :
  has_length (componentCustomEvents o) = true ->
  eventName ∈ default [] (componentCustomEvents o) ->
  Some eventName ∈ containerEmits o.
Proof.
  intros Hl Hin. unfold containerEmits. rewrite Hl.
  apply elem_of_app. left. now apply list_elem_of_fmap_2.
Qed.

Lemma model_declared o :
  truthy (modelProp o) = true ->
  Some UPDATE_VALUE_EVENT ∈ containerEmits o
  /\ externalModelUpdateEvent o ∈ containerEmits o.
Proof.
  intros Hm. unfold containerEmits. rewrite Hm.
  split; apply elem_of_app; right; rewrite !elem_of_cons; auto.
Qed.

Lemma dispatch_declared o listeners e st eff eventName :
  Forall (covered o) listeners ->
  eff ∈ (dispatch o listeners e st).2 -> emitted eff = Some eventName ->
  Some eventName ∈ containerEmits o.
Proof.
  intros Hall. revert st.
  induction Hall as [|[n l] rest Hl Hrest IH]; intros st; cbn [dispatch].
  - intros Hin. inversion Hin.
  - destruct (String.eqb n (ev_type e)); [|apply IH].
    destruct (runListener o l e st) as [st1 out1] eqn:E1.
    specialize (IH st1). destruct (dispatch o rest e st1) as [st2 out2].
    cbn [snd] in *. intros Hin Hname.
    apply elem_of_app in Hin as [Hin|Hin]; [|now apply IH].
    unfold covered in Hl. cbn [snd] in Hl.
    destruct l as [|custom]; cbn [runListener] in E1.
    + rewrite modelListener_run in E1. injection E1 as _ <-.
      destruct (model_declared o Hl) as [Hupd Hext].
      apply elem_of_cons in Hin as [->|Hin].
      * injection Hname as <-. exact Hupd.
      * unfold externalEmission in Hin.
        destruct (externalModelUpdateEvent o) as [ext|];
          [|inversion Hin].
        destruct (truthy (Some ext)); [|inversion Hin].
        apply list_elem_of_singleton in Hin. subst eff.
        injection Hname as <-. exact Hext.
    + unfold customListener, emit in E1. injection E1 as _ <-.
      apply list_elem_of_singleton in Hin. subst eff.
      injection Hname as <-. now apply custom_declared.
Qed.

Lemma mounted_covered o el :
  truthy_events (modelUpdateEvent o) = false \/ truthy (modelProp o) = true ->
  Forall (covered o) (onVnodeBeforeMount o (Some el)).
Proof.
  intros Hm. unfold onVnodeBeforeMount. apply Forall_app. split.
  - destruct (truthy_events (modelUpdateEvent o)); [|constructor].
    destruct Hm as [?|Hm]; [discriminate|].
    apply Forall_fmap, Forall_forall. intros n _. exact Hm.
  - destruct (has_length (componentCustomEvents o)) eqn:Hl; [|constructor].
    apply Forall_fmap, Forall_forall. intros n Hn. split; assumption.
Qed.

End Emits.

(** X9. Every event the wrapper emits is one it declares: when model
    wiring comes with a model property (or there is no model wiring), the
    name of each emission made during a firing stands in
    [Container.emits]. *)
Theorem emissions_declared
    (o : Options) (el : Element) (e : Event) (st : Instance)
    (eff : effect) (eventName : string) :
  truthy_events (modelUpdateEvent o) = false \/ truthy (modelProp o) = true ->
  eff ∈ (dispatch o (onVnodeBeforeMount o (Some el)) e st).2 ->
  emitted eff = Some eventName ->
  Some eventName ∈ containerEmits o.
Proof.
  intros Hm. apply dispatch_declared. now apply mounted_covered.
Qed.

(** On the sample control, what [ionChange] emits first is declared. *)
Lemma emissions_declared_witness :
  Some "update:modelValue" ∈ containerEmits Examples.input_options.
Proof.
  apply (emissions_declared Examples.input_options Examples.input_element
           Examples.ionChange Examples.cached_instance
           (Emit "update:modelValue" (OfProp (Data (VStr "abc")))
              (Data (VStr "abc")))).
  - right. reflexivity.
  - vm_compute. left.
  - reflexivity.
Defined.

(** X10. Model wiring without a model property emits an event the
    wrapper does not declare: with a model-update event name and no
    model property, a firing emits [update:modelValue], which
    [Container.emits] holds only if it happens to be listed as a custom
    event. *)
Theorem undeclared_model_emission
    (o : Options) (el : Element) (e : Event) (st : Instance) :
  truthy (modelProp o) = false ->
  truthy_events (modelUpdateEvent o) = true ->
  ev_type e ∈ eventsNames (modelUpdateEvent o) ->
  UPDATE_VALUE_EVENT ∉ default [] (componentCustomEvents o) ->
  (exists eff,
      eff ∈ (dispatch o (onVnodeBeforeMount o (Some el)) e st).2
      /\ emitted eff = Some UPDATE_VALUE_EVENT)
  /\ Some UPDATE_VALUE_EVENT ∉ containerEmits o.
Proof.
  intros Hm Ht Hin Hcustom. split.
  - destruct (model_update_firing o el e st Ht Hin) as [[later Hl] _].
    eexists. split; [rewrite Hl; left | reflexivity].
  - unfold containerEmits. rewrite Hm, app_nil_r.
    destruct (has_length (componentCustomEvents o)); [|apply not_elem_of_nil].
    intros H. apply list_elem_of_fmap in H as (n & [= <-] & Hn).
    contradiction.
Qed.

(** The sample control without a model property emits
    [update:modelValue] on [ionChange] and declares no event at all. *)
Lemma undeclared_model_emission_witness :
  (exists eff,
      eff ∈ (dispatch Examples.unbound_options
               (onVnodeBeforeMount Examples.unbound_options
                  (Some Examples.input_element))
               Examples.ionChange Examples.cached_instance).2
      /\ emitted eff = Some UPDATE_VALUE_EVENT)
  /\ containerEmits Examples.unbound_options = [].
Proof.
  destruct (undeclared_model_emission Examples.unbound_options
              Examples.input_element Examples.ionChange
              Examples.cached_instance) as [Hemit _].
  - reflexivity.
  - reflexivity.
  - vm_compute. left.
  - vm_compute. intros H. inversion H.
  - split; [exact Hemit | reflexivity].
Defined.

(** ** Setup, class input and clicks *)



(** X12. A class attribute that is neither [undefined], [null] nor a
    string makes setup throw, and makes every render throw: the render
    has reset the cache by then, has added nothing to the class set, and
    hands nothing to the element. *)
Theorem invalid_class_throws
    (o : Options) (props : gmap string propval) (attrs_class : jsval)
    (hasRouter : bool) (injected : option NavManager) (st : Instance)
    (msg : string) :
  getComponentClasses attrs_class = Throw msg ->
  setup o props attrs_class hasRouter injected = Throw msg
  /\ render o props attrs_class st
     = (set_modelPropValue (prop_get props (propKey (modelProp o))) st,
        Throw msg)
  /\ classes (render o props attrs_class st).1 = classes st.
Proof.
  intros Hc. unfold setup, render, addClasses. rewrite Hc. cbn.
  repeat split.
Qed.

(** A class attribute of [0]. *)
Lemma invalid_class_throws_witness :
  (render Examples.input_options Examples.unset_props (VNum 0)
     Examples.cached_instance).2
  = Throw "TypeError: classes.split is not a function".
Proof.
  destruct (invalid_class_throws Examples.input_options Examples.unset_props
              (VNum 0) false None Examples.cached_instance
              "TypeError: classes.split is not a function" eq_refl)
    as (_ & Hr & _).
  rewrite Hr. reflexivity.
Defined.

Section Pieces.

Lemma split_length sep s : length (split sep s) = S (countChar sep s).
Proof.
  induction s as [|c rest IH]; simpl; [reflexivity|].
  destruct (Ascii.eqb c sep); simpl; [now rewrite IH|].
  destruct (split sep rest); simpl in *; congruence.
Qed.

End Pieces.

(** X13. A class string yields one class more than it has spaces, empty
    names included: it never yields no class at all, and every further
    space, be it leading, trailing or doubled, adds a name. *)
Theorem class_pieces_count (s : string) (cls : list string) :
  getComponentClasses (VStr s) = Ok cls ->
  length cls = S (countChar " " s) /\ cls <> [].
Proof.
  intros [= <-]. split; [apply split_length | apply split_nonempty].
Qed.

(** A doubled and a trailing space. *)
Lemma class_pieces_count_witness :
  length (split " " "a  b ") = 4.
Proof.
  apply (class_pieces_count "a  b " (split " " "a  b ") eq_refl).
Defined.

(** X14. What a click can do. Whatever [oldClick] is, a click that
    returns leaves the event as the caller's handler left it and has at
    most one router effect, a navigation or a warning; it has none when
    the default was prevented on arrival; and it navigates only through
    the instance's own navigation host and only with the default not
    prevented. *)
Theorem click_router_effects
    (oldClick : propval) (props : gmap string propval) (st : Instance)
    (ev ev' : Event) (out : list effect) :
  handleClick oldClick props st ev = Ok (ev', out) ->
  ev' = clicked oldClick ev
  /\ length (List.filter is_router_effect out) <= 1
  /\ (defaultPrevented ev = true -> List.filter is_router_effect out = [])
  /\ (forall nav p, Navigate nav p ∈ out ->
        navManager st = Some nav /\ defaultPrevented ev' = false
        /\ p = navigationPayload props ev').
Proof.
  intros Hc.
  assert (is_undefined oldClick = true \/ (exists h, oldClick = Fun h)) as Hold.
  { destruct oldClick as [[]|h]; eauto; discriminate. }
  rewrite (handleClick_run _ _ _ _ Hold) in Hc. injection Hc as <- <-.
  split; [reflexivity|].
  assert (List.filter is_router_effect (called oldClick ev) = []) as Hcalled
    by (now destruct oldClick).
  assert (defaultPrevented ev = true ->
          defaultPrevented (clicked oldClick ev) = true) as Hkeep.
  { destruct oldClick; cbn; [auto|]. now intros ->. }
  rewrite List.filter_app, Hcalled. cbn [app].
  destruct (defaultPrevented (clicked oldClick ev)) eqn:Hp; cbn [negb].
  - split; [cbn; lia|]. split; [reflexivity|].
    intros nav p Hin. rewrite app_nil_r in Hin.
    destruct oldClick; cbn in Hin; [inversion Hin|].
    apply list_elem_of_singleton in Hin. discriminate.
  - split; [|split].
    + unfold handleRouterLink.
      destruct (is_EMPTY_PROP _); [cbn; lia|].
      destruct (navManager st); cbn; lia.
    + intros Hd. specialize (Hkeep Hd). congruence.
    + intros nav p Hin. apply elem_of_app in Hin as [Hin|Hin].
      * destruct oldClick; cbn in Hin; [inversion Hin|].
        apply list_elem_of_singleton in Hin. discriminate.
      * apply handleRouterLink_navigate in Hin as (_ & Hnav & ->). auto.
Qed.

(** The spec's router example: one navigation, through the instance's
    host. *)
Lemma click_router_effects_witness :
  navManager Examples.routed_instance = Some Examples.router
  /\ defaultPrevented Examples.click = false.
Proof.
  destruct (click_router_effects (prop_get Examples.link_props "onClick")
              Examples.link_props Examples.routed_instance Examples.click
              Examples.click
              [Call (fun _ => false) Examples.click;
               Navigate Examples.router
                 (navigationPayload Examples.link_props Examples.click)]
              eq_refl) as (_ & _ & _ & Hnav).
  destruct (Hnav Examples.router
              (navigationPayload Examples.link_props Examples.click))
    as (H1 & H2 & _).
  - right. left.
  - split; [exact H1 | exact H2].
Defined.

(** * Further properties of the generator *)

Section Run.

Import React.

Variable path_dirname : string -> string.
Variable path_join : list string -> string.
Variable dirname : string.
Variable readPackageJson : string -> result PackageJSON.
Variable relativeImport : string -> string -> string -> string.
Variable writeFile : string -> string -> result unit.

Implicit Types (outputTarget : OutputTargetReact) (config : Config).

(** [generateProxies] writes the proxies file or does nothing. *)
Lemma generateProxies_effects components outputTarget rootDir :
  let generated :=
    generateProxies path_dirname path_join readPackageJson relativeImport
      writeFile components outputTarget rootDir in
  (exists m, readPackageJson rootDir = Throw m /\ generated = ([], Throw m))
  \/ (exists text,
        generated = ([WriteFile (proxiesFile outputTarget) text],
                     writeFile (proxiesFile outputTarget) text)).
Proof.
  cbv zeta. unfold generateProxies.
  destruct (readPackageJson rootDir) as [pkgData|m]; [right|left]; eauto.
Qed.

(** [copyResources] copies once or not at all. *)
Lemma copyResources_effects config outputTarget :
  let copied := copyResources path_dirname path_join dirname config outputTarget in
  copied = ([], Throw NOT_INITIALIZED)
  \/ (exists tasks, copied.1 = [Copy tasks]).
Proof.
  cbv zeta. unfold copyResources.
  destruct (sys config) as [s|]; [|now left].
  destruct (copy s); [right; eexists; reflexivity | now left].
Qed.

End Run.

(** X15. The generator touches its host in one order only: nothing, or
    one write of the proxies file, or that write followed by one copy of
    the resources. The copy is made only after the write has succeeded,
    and a run that succeeds has made both. *)
Theorem run_effects_in_order
    (path_dirname : string -> string) (path_join : list string -> string)
    (dirname : string) (readPackageJson : string -> result React.PackageJSON)
    (relativeImport : string -> string -> string -> string)
    (writeFile : string -> string -> result unit)
    (outputTarget : React.OutputTargetReact)
    (components : list React.ComponentCompilerMeta) (config : React.Config) :
  let run :=
    React.reactProxyOutput path_dirname path_join dirname readPackageJson
      relativeImport writeFile outputTarget components config in
  (run.1 = []
   \/ (exists text,
         run.1 = [React.WriteFile (React.proxiesFile outputTarget) text])
   \/ (exists text tasks,
         run.1 = [React.WriteFile (React.proxiesFile outputTarget) text;
                  React.Copy tasks]
         /\ writeFile (React.proxiesFile outputTarget) text = Ok ()))
  /\ (run.2 = Ok () ->
      exists text tasks,
        run.1 = [React.WriteFile (React.proxiesFile outputTarget) text;
                 React.Copy tasks]).
Proof.
  cbv zeta. unfold React.reactProxyOutput.
  destruct (generateProxies_effects path_dirname path_join readPackageJson
              relativeImport writeFile
              (React.getFilteredComponents
                 (React.excludeComponents outputTarget) components)
              outputTarget (React.rootDir config))
    as [(m & _ & ->)|(text & ->)].
  - split; [now left | discriminate].
  - destruct (writeFile (React.proxiesFile outputTarget) text) as [[]|m] eqn:Hw.
    + destruct (copyResources_effects path_dirname path_join dirname config
                  outputTarget) as [->|(tasks & Ht)].
      * split; [right; left; eauto | discriminate].
      * destruct (React.copyResources _ _ _ _ _) as [copied r].
        cbn [fst snd] in *. subst copied. split.
        -- right. right. exists text, tasks. split; [reflexivity | exact Hw].
        -- intros _. eauto.
    + split; [right; left; eauto | discriminate].
Qed.

(** X16. A failure while the proxies are generated ends the run with
    that failure: the resources step is not reached, so nothing is copied
    and a host without the copy capability goes unreported. When the
    package description cannot be read, nothing is written either. *)
Theorem proxies_failure_ends_run
    (path_dirname : string -> string) (path_join : list string -> string)
    (dirname : string) (readPackageJson : string -> result React.PackageJSON)
    (relativeImport : string -> string -> string -> string)
    (writeFile : string -> string -> result unit)
    (outputTarget : React.OutputTargetReact)
    (components : list React.ComponentCompilerMeta) (config : React.Config)
    (msg : string) :
  let generated :=
    React.generateProxies path_dirname path_join readPackageJson relativeImport
      writeFile
      (React.getFilteredComponents (React.excludeComponents outputTarget)
         components)
      outputTarget (React.rootDir config) in
  let run :=
    React.reactProxyOutput path_dirname path_join dirname readPackageJson
      relativeImport writeFile outputTarget components config in
  generated.2 = Throw msg ->
  run = (generated.1, Throw msg)
  /\ Forall (fun eff => forall tasks, eff <> React.Copy tasks) run.1
  /\ (forall m, readPackageJson (React.rootDir config) = Throw m ->
                run = ([], Throw m)).
Proof.
  cbv zeta. unfold React.reactProxyOutput.
  destruct (generateProxies_effects path_dirname path_join readPackageJson
              relativeImport writeFile
              (React.getFilteredComponents
                 (React.excludeComponents outputTarget) components)
              outputTarget (React.rootDir config))
    as [(m & Hread & Hg)|(text & Hg)]; rewrite Hg; cbn [fst snd].
  - intros [= ->]. split; [reflexivity|]. split; [constructor|].
    intros m'. rewrite Hread. now intros [= ->].
  - intros Hw. rewrite Hw. split; [reflexivity|].
    split; [repeat constructor; discriminate|].
    intros m' Hread. exfalso. revert Hg. unfold React.generateProxies.
    rewrite Hread. discriminate.
Qed.

(** With a package description that cannot be read, a host without any
    system gets the reader's error, not the configuration error. *)
Lemma proxies_failure_ends_run_witness :
  React.reactProxyOutput Examples.sample_dirname Examples.sample_join "/lib"
    (fun _ => Throw "ENOENT") Examples.sample_import Examples.sample_write
    Examples.output_target Examples.descriptors Examples.bare_config
  = ([], Throw "ENOENT").
Proof.
  destruct (proxies_failure_ends_run Examples.sample_dirname
              Examples.sample_join "/lib" (fun _ => Throw "ENOENT")
              Examples.sample_import Examples.sample_write
              Examples.output_target Examples.descriptors Examples.bare_config
              "ENOENT" eq_refl) as (Hrun & _ & _).
  exact Hrun.
Defined.

(** X17. The definitions block has one line for each component, in the
    order of the components: cut at the line breaks it gives back exactly
    the lines [createComponentDefinition] returns, provided there is a
    component at all and no tag name or derived name holds a line
    break. *)
Theorem definitions_one_line_each
    (components : list React.ComponentCompilerMeta) :
  components <> [] ->
  (forall c, c ∈ components ->
             occurs "010" (React.tagName c) = false
             /\ occurs "010" (React.dashToPascalCase (React.tagName c)) = false) ->
  split "010" (React.componentDefinitions components)
  = concat (React.createComponentDefinition <$> components)
  /\ length (split "010" (React.componentDefinitions components))
     = length components.
Proof.
  intros Hne Hclean.
  assert (split "010" (React.componentDefinitions components)
          = concat (React.createComponentDefinition <$> components)) as Heq.
  { unfold React.componentDefinitions, React.nl.
    rewrite split_join.
    - clear. induction components as [|c cs IH]; [reflexivity|].
      rewrite !fmap_cons. cbn [concat]. now rewrite <- IH.
    - destruct components; [congruence | discriminate].
    - apply Forall_fmap, Forall_fmap, Forall_forall. intros c Hc.
      destruct (Hclean c Hc) as [Htag Hname].
      cbn [React.createComponentDefinition join compose].
      unfold React.IMPORT_TYPES.
      rewrite !occurs_append, Htag, Hname. reflexivity. }
  split; [exact Heq|]. rewrite Heq. clear.
  induction components as [|c cs IH]; [reflexivity|].
  rewrite fmap_cons. cbn [concat React.createComponentDefinition app length].
  now rewrite IH.
Qed.

(** The two lines generated for [x-a] and [x-b]. *)
Lemma definitions_one_line_each_witness :
  length (split "010"
            (React.componentDefinitions
               (React.getFilteredComponents (Some ["x-c"]) Examples.descriptors)))
  = 2.
Proof.
  destruct (definitions_one_line_each
              (React.getFilteredComponents (Some ["x-c"]) Examples.descriptors))
    as [_ Hlen].
  - vm_compute. discriminate.
  - intros c Hc. apply getFilteredComponents_elem in Hc as (Hin & _ & _).
    unfold Examples.descriptors in Hin.
    rewrite !elem_of_cons, elem_of_nil in Hin.
    destruct Hin as [->|[->|[->|[->|[]]]]]; split; reflexivity.
  - rewrite Hlen. reflexivity.
Defined.

(** X18. Exclusions compose: excluding two lists at once is the same as
    excluding the first and then dropping the tags of the second from the
    result, and leaving the exclusion list out is excluding nothing. *)
Theorem exclusions_compose
    (exclude1 exclude2 : list string)
    (cmps : list React.ComponentCompilerMeta) :
  React.getFilteredComponents (Some (exclude1 ++ exclude2)) cmps
  = filter (fun c => React.tagName c ∉ exclude2)
      (React.getFilteredComponents (Some exclude1) cmps)
  /\ React.getFilteredComponents None cmps
     = React.getFilteredComponents (Some []) cmps.
Proof.
  split; [|reflexivity]. unfold React.getFilteredComponents.
  rewrite list_filter_filter. apply list_filter_iff. intros c.
  unfold default. cbn [from_option id].
  rewrite !andb_True, !negb_True, !bool_decide_spec, elem_of_app. tauto.
Qed.

(** ** The order of the descriptors *)

Section Order.

Import React.

(** Sorting by tag name forgets the order the descriptors came in, when
    no two of them share a tag name. *)
Lemma sortBy_order_independent (cmps1 cmps2 : list ComponentCompilerMeta) :
  cmps1 ≡ₚ cmps2 ->
  (forall c1 c2, c1 ∈ cmps1 -> c2 ∈ cmps1 -> tagName c1 = tagName c2 -> c1 = c2) ->
  sortBy cmps1 tagName = sortBy cmps2 tagName.
Proof.
  intros Hperm Hinj.
  apply (StronglySorted_unique_strong (ascending tagName)).
  - intros x1 x2 H1 H2 H12 H21. apply Hinj.
    + now rewrite <- (sortBy_Permutation tagName cmps1).
    + rewrite Hperm. now rewrite <- (sortBy_Permutation tagName cmps2).
    + now apply String.leb_antisym.
  - apply sortBy_sorted.
  - apply sortBy_sorted.
  - now rewrite !sortBy_Permutation.
Qed.

End Order.

(** X19. The generated output does not depend on the order the
    descriptors arrive in: for two descriptor lists that are permutations
    of each other and hold no tag name twice, the generator keeps the
    same components in the same order, and so makes the same run, writing
    the same text. *)
Theorem generation_order_independent
    (path_dirname : string -> string) (path_join : list string -> string)
    (dirname : string) (readPackageJson : string -> result React.PackageJSON)
    (relativeImport : string -> string -> string -> string)
    (writeFile : string -> string -> result unit)
    (outputTarget : React.OutputTargetReact) (config : React.Config)
    (cmps1 cmps2 : list React.ComponentCompilerMeta) :
  cmps1 ≡ₚ cmps2 ->
  (forall c1 c2, c1 ∈ cmps1 -> c2 ∈ cmps1 ->
                 React.tagName c1 = React.tagName c2 -> c1 = c2) ->
  React.getFilteredComponents (React.excludeComponents outputTarget) cmps1
  = React.getFilteredComponents (React.excludeComponents outputTarget) cmps2
  /\ React.reactProxyOutput path_dirname path_join dirname readPackageJson
       relativeImport writeFile outputTarget cmps1 config
     = React.reactProxyOutput path_dirname path_join dirname readPackageJson
         relativeImport writeFile outputTarget cmps2 config.
Proof.
  intros Hperm Hinj.
  assert (React.getFilteredComponents (React.excludeComponents outputTarget) cmps1
          = React.getFilteredComponents (React.excludeComponents outputTarget)
              cmps2) as Heq.
  { unfold React.getFilteredComponents.
    now rewrite (sortBy_order_independent cmps1 cmps2 Hperm Hinj). }
  split; [exact Heq|]. unfold React.reactProxyOutput. now rewrite Heq.
Qed.

(** The sample descriptors, given back to front. *)
Lemma generation_order_independent_witness :
  React.getFilteredComponents (Some ["x-c"]) Examples.descriptors
  = React.getFilteredComponents (Some ["x-c"]) (reverse Examples.descriptors).
Proof.
  destruct (generation_order_independent Examples.sample_dirname
              Examples.sample_join "/lib" Examples.sample_package
              Examples.sample_import Examples.sample_write
              Examples.output_target Examples.full_config
              Examples.descriptors (reverse Examples.descriptors))
    as [Heq _].
  - symmetry. apply reverse_Permutation.
  - intros c1 c2 H1 H2. unfold Examples.descriptors in H1, H2.
    rewrite !elem_of_cons, elem_of_nil in H1, H2.
    destruct H1 as [->|[->|[->|[->|[]]]]];
      destruct H2 as [->|[->|[->|[->|[]]]]];
      (reflexivity || (intros Htag; vm_compute in Htag; discriminate)).
  - exact Heq.
Defined.

(** * A firing of a model-update event, in full *)

Section Firing.

Implicit Types (o : Options) (e : Event) (st : Instance).

(** The emissions one model listener makes for [e]. *)
Lemma modelListener_again o e st :
  modelListener o e (set_modelPropValue (readModel o e) st)
  = modelListener o e st.
Proof. now rewrite !modelListener_run. Qed.

(** Model listeners run for [e] once for each time its name is listed. *)
Lemma dispatch_model o (names : list string) e st :
  dispatch o ((fun n => (n, ModelUpdate)) <$> names) e st =
    (match filter (fun n => n = ev_type e) names with
     | [] => st
     | _ :: _ => set_modelPropValue (readModel o e) st
     end,
     concat ((fun _ => Emit UPDATE_VALUE_EVENT (OfProp (readModel o e))
                         (readModel o e)
                       :: externalEmission o e (readModel o e))
               <$> filter (fun n => n = ev_type e) names)).
Proof.
  revert st. induction names as [|n names IH]; intros st; [reflexivity|].
  rewrite fmap_cons, filter_cons. cbn [dispatch].
  destruct (String.eqb n (ev_type e)) eqn:E.
  - apply String.eqb_eq in E. rewrite decide_True by exact E.
    cbn [runListener]. rewrite modelListener_run, IH.
    rewrite fmap_cons. cbn [concat].
    destruct (filter (fun n0 => n0 = ev_type e) names); reflexivity.
  - apply String.eqb_neq in E. rewrite decide_False by exact E. apply IH.
Qed.

End Firing.

(** X20. A firing of a model-update event, in full. Each listing of the
    event's name among the model-update names gives one emission of
    [update:modelValue] with the value read off the target, followed by
    the external event when one is configured; after all of these come
    the forwards of the native event, one for each listing of the name
    among the custom events. The value read is what is cached at the end
    and what every emission finds cached. A name listed twice so emits
    twice. *)
Theorem model_update_firing_exact
    (o : Options) (el : Element) (e : Event) (st : Instance) :
  truthy_events (modelUpdateEvent o) = true ->
  ev_type e ∈ eventsNames (modelUpdateEvent o) ->
  dispatch o (onVnodeBeforeMount o (Some el)) e st =
    (set_modelPropValue (readModel o e) st,
     concat ((fun _ => Emit UPDATE_VALUE_EVENT (OfProp (readModel o e))
                         (readModel o e)
                       :: externalEmission o e (readModel o e))
               <$> filter (fun n => n = ev_type e)
                     (eventsNames (modelUpdateEvent o)))
     ++ ((fun n => Emit n (OfEvent e) (readModel o e))
           <$> filter (fun n => n = ev_type e)
                 (default [] (componentCustomEvents o)))).
Proof.
  intros Ht Hin. unfold onVnodeBeforeMount. rewrite Ht, dispatch_app.
  rewrite dispatch_model. cbn [fst snd].
  assert (exists n rest,
            filter (fun n => n = ev_type e) (eventsNames (modelUpdateEvent o))
            = n :: rest) as (n & rest & Hf).
  { destruct (filter _ _) as [|n rest] eqn:Hf; [|eauto].
    assert (ev_type e ∈ filter (fun n => n = ev_type e)
                          (eventsNames (modelUpdateEvent o))) as Hin'
      by (apply list_elem_of_filter; auto).
    rewrite Hf in Hin'. inversion Hin'. }
  rewrite Hf.
  replace (if has_length (componentCustomEvents o)
           then (fun eventName => (eventName, Custom eventName))
                  <$> default [] (componentCustomEvents o)
           else [])
    with ((fun eventName => (eventName, Custom eventName))
            <$> default [] (componentCustomEvents o))
    by (now destruct (componentCustomEvents o) as [[|]|]).
  rewrite dispatch_custom. reflexivity.
Qed.

(** On the sample control [ionChange] gives the binding update, the
    external event and one forward. *)
Lemma model_update_firing_exact_witness :
  (dispatch Examples.input_options
     (onVnodeBeforeMount Examples.input_options (Some Examples.input_element))
     Examples.ionChange Examples.routed_instance).2
  = [Emit "update:modelValue" (OfProp (Data (VStr "abc"))) (Data (VStr "abc"));
     Emit "change" (OfEvent Examples.ionChange) (Data (VStr "abc"));
     Emit "ionChange" (OfEvent Examples.ionChange) (Data (VStr "abc"))].
Proof.
  rewrite (model_update_firing_exact Examples.input_options
             Examples.input_element Examples.ionChange
             Examples.routed_instance).
  - reflexivity.
  - reflexivity.
  - vm_compute. left.
Defined.
